(** * Verification of the upload scheduler of propertio

    Shallow embedding of
    - [src/src/lib/uploadManager.ts]  (class [UploadManager]),
    - the React hook [useUploadManager] of [src/unnamed/part_008]
      (the version imported by the post page; its [retryUpload] and
      [uploadSingleFile] coincide with those of [part_006]),
    - the hook of [src/unnamed/part_007] built on the class,
    - the image POST handler of [src/unnamed/part_001].

    Asynchrony is modelled by explicit events: each [op] is one macrotask
    or promise settlement that the JavaScript event loop may run next
    (a [setInterval] tick, the settling of an upload, a poll of the hook's
    loop, a call of a public method).  Synchronous code between two awaits
    runs as one step. *)

From Stdlib Require Import List String Ascii ZArith QArith Qround Lqa Lia Bool Permutation.
Import ListNotations.

Open Scope string_scope.
Open Scope list_scope.
Open Scope Q_scope.

(** ** JavaScript numbers

    The code only compares, subtracts, [Math.min]/[Math.max]es and
    truncates (in [Array.prototype.splice]) numbers.  Finite numbers are
    taken as rationals (rounding plays no role in these operations on the
    values that occur); NaN and the infinities are kept. *)

Inductive jsnum : Type :=
| JNum (q : Q)
| JNaN
| JPosInf
| JNegInf.

(** [Math.min(a, b)]: NaN if either is NaN, else the smaller. *)
Definition js_min (a b : jsnum) : jsnum :=
  match a, b with
  | JNaN, _ | _, JNaN => JNaN
  | JNegInf, _ | _, JNegInf => JNegInf
  | JPosInf, x | x, JPosInf => x
  | JNum x, JNum y => if Qle_bool x y then JNum x else JNum y
  end.

(** [Math.max(a, b)]: NaN if either is NaN, else the larger. *)
Definition js_max (a b : jsnum) : jsnum :=
  match a, b with
  | JNaN, _ | _, JNaN => JNaN
  | JPosInf, _ | _, JPosInf => JPosInf
  | JNegInf, x | x, JNegInf => x
  | JNum x, JNum y => if Qle_bool y x then JNum x else JNum y
  end.

Definition qnat (n : nat) : Q := inject_Z (Z.of_nat n).

(** [n >= x] for a natural [n] (a [Set] size) and a number [x]. *)
Definition js_ge_nat (n : nat) (x : jsnum) : bool :=
  match x with
  | JNum q => Qle_bool q (qnat n)
  | JNaN => false
  | JPosInf => false
  | JNegInf => true
  end.

(** [x - n]. *)
Definition js_sub_nat (x : jsnum) (n : nat) : jsnum :=
  match x with
  | JNum q => JNum (q - qnat n)
  | o => o
  end.

(** The delete count [splice(0, x)] uses on an array of length [len]:
    ToIntegerOrInfinity (NaN is 0, finite values truncate toward 0),
    then clamped to [0, len]. *)
Definition splice_count (x : jsnum) (len : nat) : nat :=
  match x with
  | JNum q => if Qle_bool q 0 then 0%nat else Nat.min (Z.to_nat (Qfloor q)) len
  | JNaN => 0%nat
  | JPosInf => len
  | JNegInf => 0%nat
  end.

(** [Math.max(1, Math.min(10, v))], the clamp of the constructor and of
    [updateConfig]. *)
Definition clampConcurrent (v : jsnum) : jsnum :=
  js_max (JNum 1) (js_min (JNum 10) v).

Definition in_1_10 (x : jsnum) : bool :=
  match x with
  | JNum q => Qle_bool 1 q && Qle_bool q 10
  | _ => false
  end.

(** ** Strings and the environment *)

Fixpoint drop_slashes (l : list ascii) : list ascii :=
  match l with
  | c :: r => if Ascii.eqb c "/"%char then drop_slashes r else l
  | [] => []
  end.

(** [s.replace(/^\/+|\/+$/g, '')]. *)
Definition trim_slashes (s : string) : string :=
  string_of_list_ascii
    (rev (drop_slashes (rev (drop_slashes (list_ascii_of_string s))))).

(** [process.env]: a variable is unset ([None]) or holds a string. *)
Definition Env := string -> option string.

(** [process.env.K || d]: the empty string is falsy. *)
Definition env_or (e : Env) (k d : string) : string :=
  match e k with
  | Some v => if String.eqb v "" then d else v
  | None => d
  end.

Definition truthy (o : option string) : bool :=
  match o with
  | Some v => negb (String.eqb v "")
  | None => false
  end.

(** A template literal [`${x}`] of a possibly unset variable. *)
Definition tpl (o : option string) : string :=
  match o with Some v => v | None => "undefined" end.

(** ** Files *)

Record File := mkFile {
  f_name : string;
  f_type : string;
  f_uuid : nat  (** the [uuid] the post page attaches ([FileWithUUID]) *)
}.

(** ** The class [UploadManager] (src/src/lib/uploadManager.ts) *)

Module UploadManager.

(** [UploadTask]; the three callbacks are the closures built in
    [addToQueue], whose invocations are recorded in [emitted]. *)
Record UploadTask := mkTask {
  id : nat;
  file : File;
  propertyId : string
}.

Record UploadManagerConfig := mkConfig {
  cfg_maxConcurrent : option jsnum;
  cfg_baseLocation : option string
}.

(** An invocation of [onProgress], [onComplete] or [onError] of a task.
    The url passed to [onComplete] is not observed by anything modelled
    here and is left out. *)
Inductive Callback :=
| OnProgress (taskId : nat) (progress : Q)
| OnComplete (taskId : nat)
| OnError (taskId : nat) (message : string).

(** A live [progressInterval] of an [uploadFile] call, with the local
    [progress] it closes over; [tm_task] identifies the call (each task is
    uploaded by one call). *)
Record Timer := mkTimer {
  tm_task : nat;
  tm_progress : Q
}.

(** The S3 client as built by the constructor. *)
Record S3Conf := mkS3 {
  s3_region : string;
  s3_endpoint : string;
  s3_accessKeyId : string;
  s3_secretAccessKey : string
}.

(** The fields of the class, the pending [uploadFile] promises
    ([inflight]), the live intervals, the callbacks invoked so far, the
    [uuidv4] supply, and three ghost logs (not program state) recording
    the ids pushed on the queue, admitted to upload, and removed from the
    queue by [clearQueue]/[removeFromQueue]. *)
Record UM := mkUM {
  queue : list UploadTask;
  activeUploads : list nat;   (** a [Set<string>], kept duplicate free *)
  maxConcurrent : jsnum;
  baseLocation : string;
  bucketName : string;
  s3Client : S3Conf;
  inflight : list UploadTask;
  timers : list Timer;
  emitted : list Callback;
  seed : nat;                 (** [uuidv4()] returns [seed] and bumps it *)
  g_enqueued : list nat;
  g_admitted : list nat;
  g_dropped : list nat
}.

Definition set_queue (q : list UploadTask) (s : UM) : UM :=
  mkUM q (activeUploads s) (maxConcurrent s) (baseLocation s) (bucketName s)
    (s3Client s) (inflight s) (timers s) (emitted s) (seed s)
    (g_enqueued s) (g_admitted s) (g_dropped s).

Definition set_config (m : jsnum) (b : string) (s : UM) : UM :=
  mkUM (queue s) (activeUploads s) m b (bucketName s)
    (s3Client s) (inflight s) (timers s) (emitted s) (seed s)
    (g_enqueued s) (g_admitted s) (g_dropped s).

Definition set_timers (t : list Timer) (s : UM) : UM :=
  mkUM (queue s) (activeUploads s) (maxConcurrent s) (baseLocation s) (bucketName s)
    (s3Client s) (inflight s) t (emitted s) (seed s)
    (g_enqueued s) (g_admitted s) (g_dropped s).

Definition emit (c : Callback) (s : UM) : UM :=
  mkUM (queue s) (activeUploads s) (maxConcurrent s) (baseLocation s) (bucketName s)
    (s3Client s) (inflight s) (timers s) (emitted s ++ [c]) (seed s)
    (g_enqueued s) (g_admitted s) (g_dropped s).

Definition drop (ids : list nat) (s : UM) : UM :=
  mkUM (queue s) (activeUploads s) (maxConcurrent s) (baseLocation s) (bucketName s)
    (s3Client s) (inflight s) (timers s) (emitted s) (seed s)
    (g_enqueued s) (g_admitted s) (g_dropped s ++ ids).

(** [Set.prototype.add] and [Set.prototype.delete]. *)
Definition set_add (x : nat) (l : list nat) : list nat :=
  if existsb (Nat.eqb x) l then l else l ++ [x].

Definition set_delete (x : nat) (l : list nat) : list nat :=
  filter (fun y => negb (Nat.eqb x y)) l.

Fixpoint remove_nth {A} (k : nat) (l : list A) : list A :=
  match l, k with
  | [], _ => []
  | _ :: r, O => r
  | a :: r, S k' => a :: remove_nth k' r
  end.

(** [constructor(config?)]: [Throw] carries the error message. *)
Inductive Result (A : Type) :=
| Ok (a : A)
| Throw (message : string).
Arguments Ok {A} a.
Arguments Throw {A} message.

Definition construct (e : Env) (config : option UploadManagerConfig) : Result UM :=
  let bucket := env_or e "CLOUDFLARE_R2_BUCKET_NAME" "" in
  let region := env_or e "CLOUDFLARE_R2_REGION" "auto" in
  let mc := match config with
            | Some c => match cfg_maxConcurrent c with
                        | Some v => clampConcurrent v
                        | None => JNum 3
                        end
            | None => JNum 3
            end in
  let bl := match config with
            | Some c => match cfg_baseLocation c with
                        | Some b => trim_slashes b
                        | None => "portfolio"%string
                        end
            | None => "portfolio"%string
            end in
  if negb (truthy (e "CLOUDFLARE_R2_ACCESS_KEY_ID"))
     || negb (truthy (e "CLOUDFLARE_R2_SECRET_ACCESS_KEY"))
  then Throw "Cloudflare R2 credentials not configured"
  else Ok (mkUM [] [] mc bl bucket
             (mkS3 region
                (String.append "https://"
                   (String.append (tpl (e "CLOUDFLARE_R2_ACCOUNT_ID"))
                      ".r2.cloudflarestorage.com"))
                (tpl (e "CLOUDFLARE_R2_ACCESS_KEY_ID"))
                (tpl (e "CLOUDFLARE_R2_SECRET_ACCESS_KEY")))
             [] [] [] 0 [] [] []).

(** The synchronous start of one upload inside [processQueue]'s
    [forEach]: [activeUploads.add(task.id)], then [uploadFile(task)] runs
    until its first [await]: one [uuidv4()] for the object name and the
    [setInterval] with [progress = 0]. *)
Definition startUpload (s : UM) (t : UploadTask) : UM :=
  mkUM (queue s) (set_add (id t) (activeUploads s)) (maxConcurrent s)
    (baseLocation s) (bucketName s) (s3Client s)
    (inflight s ++ [t]) (timers s ++ [mkTimer (id t) 0]) (emitted s) (S (seed s))
    (g_enqueued s) (g_admitted s ++ [id t]) (g_dropped s).

(** [processQueue()]; it has no [await], so it runs to its end when
    called. *)
Definition processQueue (s : UM) : UM :=
  if js_ge_nat (List.length (activeUploads s)) (maxConcurrent s)
     || Nat.eqb (List.length (queue s)) 0
  then s
  else
    let availableSlots := js_sub_nat (maxConcurrent s) (List.length (activeUploads s)) in
    let n := splice_count availableSlots (List.length (queue s)) in
    fold_left startUpload (firstn n (queue s)) (set_queue (skipn n (queue s)) s).

(** The [forEach] of [addToQueue]: each file gets [uuidv4()] as id and is
    pushed at the tail. *)
Fixpoint pushFiles (files : list File) (pid : string) (s : UM) : list nat * UM :=
  match files with
  | [] => ([], s)
  | f :: fs =>
      let t := mkTask (seed s) f pid in
      let s1 := mkUM (queue s ++ [t]) (activeUploads s) (maxConcurrent s)
                  (baseLocation s) (bucketName s) (s3Client s)
                  (inflight s) (timers s) (emitted s) (S (seed s))
                  (g_enqueued s ++ [id t]) (g_admitted s) (g_dropped s) in
      let '(ids, s2) := pushFiles fs pid s1 in
      (id t :: ids, s2)
  end.

(** [addToQueue(files, propertyId, callbacks)]: returns the task ids. *)
Definition addToQueue (s : UM) (files : list File) (pid : string) : list nat * UM :=
  let '(taskIds, s1) := pushFiles files pid s in
  (taskIds, processQueue s1).

(** How the [await]ed work of [uploadFile] ends: [s3Client.send]
    resolves, or something in the [try] throws. *)
Inductive Outcome :=
| SendOk
| SendFail (message : string).

Definition clearInterval (tid : nat) (s : UM) : UM :=
  set_timers (filter (fun tm => negb (Nat.eqb (tm_task tm) tid)) (timers s)) s.

(** The [k]-th pending [uploadFile] promise settles: the rest of its body
    runs, then the [.finally] of [processQueue]. The caller's callbacks
    are taken to return normally (a throwing [onComplete] would reach the
    [catch] and call [onError] too). *)
Definition settle (k : nat) (o : Outcome) (s : UM) : UM :=
  match nth_error (inflight s) k with
  | None => s
  | Some t =>
      let s1 := match o with
                | SendOk => emit (OnComplete (id t))
                              (emit (OnProgress (id t) 100) (clearInterval (id t) s))
                | SendFail m => emit (OnError (id t) m) s
                end in
      processQueue
        (mkUM (queue s1) (set_delete (id t) (activeUploads s1)) (maxConcurrent s1)
           (baseLocation s1) (bucketName s1) (s3Client s1)
           (remove_nth k (inflight s1)) (timers s1) (emitted s1) (seed s1)
           (g_enqueued s1) (g_admitted s1) (g_dropped s1))
  end.

(** The [k]-th live interval fires, [Math.random()] having returned [r]
    (in [0, 1), else the event cannot happen). *)
Definition tick (k : nat) (r : Q) (s : UM) : UM :=
  match nth_error (timers s) k with
  | None => s
  | Some tm =>
      if Qle_bool 0 r && negb (Qle_bool 1 r) then
        if negb (Qle_bool 90 (tm_progress tm)) then
          let p := tm_progress tm + r * 10 in
          emit (OnProgress (tm_task tm) p)
            (set_timers (firstn k (timers s) ++ [mkTimer (tm_task tm) p]
                         ++ skipn (S k) (timers s)) s)
        else s
      else s
  end.

(** [updateConfig(config)]. *)
Definition updateConfig (c : UploadManagerConfig) (s : UM) : UM :=
  let m := match cfg_maxConcurrent c with
           | Some v => clampConcurrent v
           | None => maxConcurrent s
           end in
  let b := match cfg_baseLocation c with
           | Some v => trim_slashes v
           | None => baseLocation s
           end in
  set_config m b s.

(** [clearQueue()]. *)
Definition clearQueue (s : UM) : UM :=
  set_queue [] (drop (map id (queue s)) s).

Fixpoint findIndex (x : nat) (q : list UploadTask) : option nat :=
  match q with
  | [] => None
  | t :: r => if Nat.eqb (id t) x then Some 0%nat
              else option_map S (findIndex x r)
  end.

(** [removeFromQueue(taskId)]. *)
Definition removeFromQueue (x : nat) (s : UM) : bool * UM :=
  match findIndex x (queue s) with
  | Some i => (true, set_queue (remove_nth i (queue s)) (drop [x] s))
  | None => (false, s)
  end.

(** [getStatus().activeUploads]. *)
Definition activeCount (s : UM) : nat := List.length (activeUploads s).

Inductive op :=
| AddToQueue (files : list File) (pid : string)
| Settle (k : nat) (o : Outcome)
| Tick (k : nat) (r : Q)
| UpdateConfig (c : UploadManagerConfig)
| ClearQueue
| RemoveFromQueue (x : nat).

Definition run_op (s : UM) (o : op) : UM :=
  match o with
  | AddToQueue fs pid => snd (addToQueue s fs pid)
  | Settle k out => settle k out s
  | Tick k r => tick k r s
  | UpdateConfig c => updateConfig c s
  | ClearQueue => clearQueue s
  | RemoveFromQueue x => snd (removeFromQueue x s)
  end.

Definition run (s : UM) (ops : list op) : UM := fold_left run_op ops s.

End UploadManager.

(** ** The hook [useUploadManager] of src/unnamed/part_008

    React state: [setUploads(f)] applies the updater [f] to the current
    list; updaters run in the order they were issued, so they are applied
    at once.  The [activeUploadsSet] objects are shared between a loop
    and the uploads it starts, so they live in a store [sets] indexed by
    reference. *)

Module Hook.

Inductive UStatus := Queued | Uploading | Completed | Error.

Definition ustatus_eqb (a b : UStatus) : bool :=
  match a, b with
  | Queued, Queued | Uploading, Uploading
  | Completed, Completed | Error, Error => true
  | _, _ => false
  end.

(** [UploadStatus]; [id] is [file.uuid]. *)
Record UploadStatus := mkStatus {
  u_id : nat;
  filename : string;
  progress : Z;
  status : UStatus;
  url : option string;
  error : option string;
  u_file : option File;
  u_propertyId : option string
}.

Definition to_uploading (u : UploadStatus) : UploadStatus :=
  mkStatus (u_id u) (filename u) 10 Uploading (url u) (error u) (u_file u) (u_propertyId u).

Definition bump (u : UploadStatus) : UploadStatus :=
  mkStatus (u_id u) (filename u) (Z.min (progress u + 10) 90) (status u)
    (url u) (error u) (u_file u) (u_propertyId u).

Definition to_completed (l : option string) (u : UploadStatus) : UploadStatus :=
  mkStatus (u_id u) (filename u) 100 Completed l (error u) (u_file u) (u_propertyId u).

Definition to_error (e : string) (u : UploadStatus) : UploadStatus :=
  mkStatus (u_id u) (filename u) (progress u) Error (url u) (Some e) (u_file u) (u_propertyId u).

(** The updater of [retryUpload]:
    [{ ...upload, status: 'queued', progress: 0, error: undefined }]. *)
Definition reset (u : UploadStatus) : UploadStatus :=
  mkStatus (u_id u) (filename u) 0 Queued (url u) None (u_file u) (u_propertyId u).

(** [prev.map(upload => upload.id === x ? f(upload) : upload)]. *)
Definition map_id (x : nat) (f : UploadStatus -> UploadStatus) (l : list UploadStatus) :=
  map (fun u => if Nat.eqb (u_id u) x then f u else u) l.

(** A running [processQueue] loop of one [uploadFiles] call. *)
Record Loop := mkLoop {
  fileQueue : list (File * nat);
  loopSet : nat;            (** reference of its [activeUploadsSet] *)
  loopPid : string
}.

(** A pending [uploadSingleFile] call, past its first [await]. *)
Record Flight := mkFlight {
  fl_file : File;
  fl_uploadId : nat;
  fl_pid : string;
  fl_set : nat;             (** the [activeUploadsSet] it was given *)
  fl_interval : nat         (** handle of its [progressInterval] *)
}.

Record Interval := mkInterval {
  iv_handle : nat;
  iv_uploadId : nat
}.

Record HS := mkHS {
  uploads : list UploadStatus;
  isUploading : bool;
  sets : list (list nat);
  loops : list Loop;
  flights : list Flight;
  intervals : list Interval;
  nextHandle : nat
}.

Definition maxConcurrentUploads : nat := 3.

Definition set_uploads (l : list UploadStatus) (s : HS) : HS :=
  mkHS l (isUploading s) (sets s) (loops s) (flights s) (intervals s) (nextHandle s).

Definition set_isUploading (b : bool) (s : HS) : HS :=
  mkHS (uploads s) b (sets s) (loops s) (flights s) (intervals s) (nextHandle s).

Definition set_loops (l : list Loop) (s : HS) : HS :=
  mkHS (uploads s) (isUploading s) (sets s) l (flights s) (intervals s) (nextHandle s).

Definition set_get (r : nat) (s : HS) : list nat := nth r (sets s) [].

Definition set_upd (r : nat) (f : list nat -> list nat) (s : HS) : HS :=
  mkHS (uploads s) (isUploading s)
    (firstn r (sets s) ++ [f (set_get r s)] ++ skipn (S r) (sets s))
    (loops s) (flights s) (intervals s) (nextHandle s).

(** [new Set()] (with initial content): its reference is the next index. *)
Definition set_alloc (init : list nat) (s : HS) : HS :=
  mkHS (uploads s) (isUploading s) (sets s ++ [init]) (loops s) (flights s)
    (intervals s) (nextHandle s).

(** [uploadSingleFile(file, uploadId, propertyId, activeUploadsSet)] up to
    its [await]: status [uploading] with progress 10, and the interval. *)
Definition startSingle (f : File) (uid : nat) (pid : string) (r : nat) (s : HS) : HS :=
  mkHS (map_id uid to_uploading (uploads s)) (isUploading s) (sets s) (loops s)
    (flights s ++ [mkFlight f uid pid r (nextHandle s)])
    (intervals s ++ [mkInterval (nextHandle s) uid]) (S (nextHandle s)).

(** The inner [while (fileQueue.length > 0 && activeUploadsSet.size < 3)]. *)
Fixpoint admitLoop (q : list (File * nat)) (r : nat) (pid : string) (s : HS)
  : list (File * nat) * HS :=
  match q with
  | [] => ([], s)
  | (f, uid) :: q' =>
      if Nat.ltb (List.length (set_get r s)) maxConcurrentUploads then
        admitLoop q' r pid
          (startSingle f uid pid r (set_upd r (UploadManager.set_add uid) s))
      else (q, s)
  end.

(** One iteration of the outer loop of the [k]-th running [processQueue]:
    its condition is tested; the loop ends ([setIsUploading(false)]) or
    admits and then sleeps 100ms. *)
Definition loopIter (k : nat) (s : HS) : HS :=
  match nth_error (loops s) k with
  | None => s
  | Some l =>
      if Nat.eqb (List.length (fileQueue l)) 0
         && Nat.eqb (List.length (set_get (loopSet l) s)) 0
      then set_isUploading false
             (set_loops (UploadManager.remove_nth k (loops s)) s)
      else
        let '(q', s1) := admitLoop (fileQueue l) (loopSet l) (loopPid l) s in
        set_loops (firstn k (loops s1) ++ [mkLoop q' (loopSet l) (loopPid l)]
                   ++ skipn (S k) (loops s1)) s1
  end.

(** [uploadFiles(files, propertyId)], to the first [await] of its
    [processQueue]; returns the ids. *)
Definition uploadFiles (files : list File) (pid : string) (s : HS) : list nat * HS :=
  let newUploads :=
    map (fun f => mkStatus (f_uuid f) (f_name f) 0 Queued None None (Some f) (Some pid))
      files in
  let s1 := set_isUploading true (set_uploads newUploads (set_uploads [] s)) in
  let r := List.length (sets s1) in
  let s2 := set_alloc [] s1 in
  let s3 := set_loops (loops s2 ++ [mkLoop (map (fun f => (f, f_uuid f)) files) r pid]) s2 in
  (map u_id newUploads, loopIter (List.length (loops s2)) s3).

(** [ApiResponse] of [apiClient.uploadPropertyImages]. *)
Record Response := mkResp {
  success : bool;
  urls : option (list string);   (** [response.data?.urls] *)
  resp_error : option string
}.

Inductive SOutcome :=
| Returned (r : Response)
| Threw (message : option string).   (** [None]: not an [Error] *)

(** [x || 'Upload failed'] on a possibly unset string. *)
Definition or_failed (o : option string) : string :=
  match o with
  | Some v => if String.eqb v "" then "Upload failed" else v
  | None => "Upload failed"
  end.

Definition clearIv (h : nat) (s : HS) : HS :=
  mkHS (uploads s) (isUploading s) (sets s) (loops s) (flights s)
    (filter (fun iv => negb (Nat.eqb (iv_handle iv) h)) (intervals s)) (nextHandle s).

(** The [k]-th pending [uploadSingleFile] resumes after its [await] and
    runs to its end, [finally] included. *)
Definition settleSingle (k : nat) (o : SOutcome) (s : HS) : HS :=
  match nth_error (flights s) k with
  | None => s
  | Some fl =>
      let uid := fl_uploadId fl in
      let s1 :=
        match o with
        | Returned resp =>
            let s' := clearIv (fl_interval fl) s in
            if success resp && (match urls resp with Some _ => true | None => false end)
            then set_uploads
                   (map_id uid (to_completed (match urls resp with
                                              | Some l => hd_error l
                                              | None => None
                                              end)) (uploads s')) s'
            else set_uploads (map_id uid (to_error (or_failed (resp_error resp))) (uploads s')) s'
        | Threw m =>
            set_uploads (map_id uid (to_error (match m with
                                               | Some x => x
                                               | None => "Upload failed"
                                               end)) (uploads s)) s
        end in
      let s2 := mkHS (uploads s1) (isUploading s1) (sets s1) (loops s1)
                  (UploadManager.remove_nth k (flights s1)) (intervals s1) (nextHandle s1) in
      set_upd (fl_set fl) (UploadManager.set_delete uid) s2
  end.

(** The [k]-th live [progressInterval] fires. *)
Definition intervalTick (k : nat) (s : HS) : HS :=
  match nth_error (intervals s) k with
  | None => s
  | Some iv =>
      set_uploads
        (map (fun u => if Nat.eqb (u_id u) (iv_uploadId iv)
                          && ustatus_eqb (status u) Uploading
                       then bump u else u) (uploads s)) s
  end.

(** [retryUpload(uploadId)]; [uploads] is read from the state (the
    callback is rebuilt on every change of [uploads]).  The guard
    [!upload || upload.status !== 'error' || !upload.file ||
    !upload.propertyId] returns at once; a [File] object is truthy, an
    empty property id is not. *)
Definition retryUpload (x : nat) (s : HS) : HS :=
  match find (fun u => Nat.eqb (u_id u) x) (uploads s) with
  | Some u =>
      match status u, u_file u, u_propertyId u with
      | Error, Some f, Some pid =>
          if String.eqb pid "" then s
          else
            let s1 := set_uploads (map_id x reset (uploads s)) s in
            let r := List.length (sets s1) in
            startSingle f x pid r (set_alloc [x] s1)
      | _, _, _ => s
      end
  | None => s
  end.

Definition removeUpload (x : nat) (s : HS) : HS :=
  set_uploads (filter (fun u => negb (Nat.eqb (u_id u) x)) (uploads s)) s.

Definition clearUploads (s : HS) : HS :=
  set_isUploading false (set_uploads [] s).

Inductive hop :=
| HUploadFiles (files : list File) (pid : string)
| HPoll (k : nat)
| HTick (k : nat)
| HSettle (k : nat) (o : SOutcome)
| HRetry (x : nat)
| HRemove (x : nat)
| HClear.

Definition hrun_op (s : HS) (o : hop) : HS :=
  match o with
  | HUploadFiles fs pid => snd (uploadFiles fs pid s)
  | HPoll k => loopIter k s
  | HTick k => intervalTick k s
  | HSettle k out => settleSingle k out s
  | HRetry x => retryUpload x s
  | HRemove x => removeUpload x s
  | HClear => clearUploads s
  end.

Definition hrun (s : HS) (ops : list hop) : HS := fold_left hrun_op ops s.

Definition hinit : HS := mkHS [] false [] [] [] [] 0.

Definition count_status (st : UStatus) (l : list UploadStatus) : nat :=
  List.length (filter (fun u => ustatus_eqb (status u) st) l).

End Hook.

(** ** The hook of src/unnamed/part_007, built on the [UploadManager]
    singleton.  Only what [clearUploads] and the callbacks do is
    modelled. *)

Module LegacyHook.

Import UploadManager.

(** Its [UploadStatus]; whether [url] is set is kept, not its value. *)
Record UploadStatus7 := mkStatus7 {
  id7 : nat;
  filename7 : string;
  progress7 : Q;
  status7 : Hook.UStatus;
  has_url7 : bool;
  error7 : option string
}.

Record St7 := mkSt7 {
  uploads7 : list UploadStatus7;
  isUploading7 : bool;
  mgr : UM                  (** the singleton [uploadManager] *)
}.

Definition all_done (l : list UploadStatus7) : bool :=
  forallb (fun u => Hook.ustatus_eqb (status7 u) Hook.Completed
                    || Hook.ustatus_eqb (status7 u) Hook.Error) l.

(** The callbacks passed to [addToQueue]; the check of the completion
    callbacks reads [uploadsRef.current], the last rendered list, taken to
    be the current one. *)
Definition onCallback (st : St7) (c : Callback) : St7 :=
  match c with
  | OnProgress tid p =>
      mkSt7 (map (fun u => if Nat.eqb (id7 u) tid
                           then mkStatus7 (id7 u) (filename7 u) p Hook.Uploading
                                  (has_url7 u) (error7 u)
                           else u) (uploads7 st))
        (isUploading7 st) (mgr st)
  | OnComplete tid =>
      let l := map (fun u => if Nat.eqb (id7 u) tid
                             then mkStatus7 (id7 u) (filename7 u) 100 Hook.Completed
                                    true (error7 u)
                             else u) (uploads7 st) in
      mkSt7 l (if all_done l then false else isUploading7 st) (mgr st)
  | OnError tid m =>
      let l := map (fun u => if Nat.eqb (id7 u) tid
                             then mkStatus7 (id7 u) (filename7 u) (progress7 u) Hook.Error
                                    (has_url7 u) (Some m)
                             else u) (uploads7 st) in
      mkSt7 l (if all_done l then false else isUploading7 st) (mgr st)
  end.

(** An event of the manager, whose new callback invocations then run. *)
Definition deliver (st : St7) (o : op) : St7 :=
  let m' := run_op (mgr st) o in
  fold_left onCallback (skipn (List.length (emitted (mgr st))) (emitted m'))
    (mkSt7 (uploads7 st) (isUploading7 st) m').

(** [clearUploads()]: [setUploads([])], [uploadManager.clearQueue()],
    [setIsUploading(false)]. *)
Definition clearUploads (st : St7) : St7 :=
  mkSt7 [] false (clearQueue (mgr st)).

End LegacyHook.

(** ** The image POST handler of src/unnamed/part_001 *)

Module ImagesPost.

Section Post.

(** [uploadImage(image, ...)] resolves with a url ([Some]) or throws. *)
Variable uploadImage : File -> option string.

(** The [for (const image of images)] loop. *)
Fixpoint processImages (images : list File) : list string :=
  match images with
  | [] => []
  | image :: rest =>
      if negb (String.prefix "image/" (f_type image)) then processImages rest
      else match uploadImage image with
           | Some u => u :: processImages rest
           | None => processImages rest
           end
  end.

Inductive PostResponse :=
| Success (urls : list string)
| Failure (httpStatus : Z) (message : string).

(** Which awaited call of [POST] rejects, if any: [ensureConnection()] or
    [Property.findById] ([DbFails]), [request.formData()] ([FormFails]),
    or the [Property.findByIdAndUpdate] that records the urls
    ([UpdateFails]).  Each lands in the outer [catch]. *)
Inductive Fault := NoFault | DbFails | FormFails | UpdateFails.

(** [POST], given the call that rejects, whether the property exists and
    whether the R2 variables are set. *)
Definition post (fault : Fault) (propertyExists r2Configured : bool) (images : list File)
  : PostResponse :=
  match fault with
  | DbFails => Failure 500 "Internal server error"
  | _ =>
      if negb propertyExists then Failure 404 "Property not found"
      else match fault with
           | FormFails => Failure 500 "Internal server error"
           | _ =>
               match images with
               | [] => Failure 400 "No images provided"
               | _ =>
                   if negb r2Configured then
                     Failure 500 "Cloudflare R2 configuration missing"
                   else
                     let uploadedUrls := processImages images in
                     match uploadedUrls, fault with
                     | _ :: _, UpdateFails => Failure 500 "Internal server error"
                     | _, _ => Success uploadedUrls
                     end
               end
           end
  end.

End Post.

End ImagesPost.

(** ** Conditions on runs of the class used by the statements *)

Module Runs.

Import UploadManager.

(** An [UpdateConfig] event does not set the limit below the number of
    uploads in flight (nor to NaN). *)
Definition keeps_limit (s : UM) (o : op) : bool :=
  match o with
  | UpdateConfig c =>
      match cfg_maxConcurrent c with
      | Some v => match clampConcurrent v with
                  | JNum q => Qle_bool (qnat (activeCount s)) q
                  | _ => false
                  end
      | None => true
      end
  | _ => true
  end.

Fixpoint run_keeps_limit (s : UM) (ops : list op) : bool :=
  match ops with
  | [] => true
  | o :: os => keeps_limit s o && run_keeps_limit (run_op s o) os
  end.

Definition not_nan (o : option jsnum) : bool :=
  match o with Some JNaN => false | _ => true end.

(** No configuration in the run sets the limit to NaN. *)
Definition op_no_nan (o : op) : bool :=
  match o with
  | UpdateConfig c => not_nan (cfg_maxConcurrent c)
  | _ => true
  end.

Definition config_no_nan (c : option UploadManagerConfig) : bool :=
  match c with Some c => not_nan (cfg_maxConcurrent c) | None => true end.

(** [x] does not occur in [l]. *)
Definition notin (l : list nat) (x : nat) : bool := negb (existsb (Nat.eqb x) l).

(** Admission order: the ids admitted so far followed by the ids still
    queued are exactly the ids pushed by [addToQueue], in push order, less
    those removed from the queue. *)
Definition fifo (s : UM) : Prop :=
  g_admitted s ++ map id (queue s) = filter (notin (g_dropped s)) (g_enqueued s)
  /\ NoDup (g_enqueued s)
  /\ Forall (fun x => (x < seed s)%nat) (g_enqueued s)
  /\ Forall (fun x => (x < seed s)%nat) (g_dropped s).

(** Slot accounting: the [activeUploads] set lists exactly the ids of the
    pending [uploadFile] calls, and queued and pending ids are distinct
    ids already handed out by [uuidv4]. *)
Definition slots (s : UM) : Prop :=
  activeUploads s = map id (inflight s)
  /\ NoDup (map id (queue s) ++ map id (inflight s))
  /\ Forall (fun x => (x < seed s)%nat) (map id (queue s) ++ map id (inflight s)).

(** The limit is a number at least 1, and with no upload pending the
    queue is empty. *)
Definition drained (s : UM) : Prop :=
  exists q, maxConcurrent s = JNum q /\ 1 <= q /\ (inflight s = [] -> queue s = []).

(** The limit invariant: the limit is a number and the [Set] of active
    uploads is no larger. *)
Definition within (s : UM) : Prop :=
  exists q, maxConcurrent s = JNum q /\ qnat (activeCount s) <= q.

(** An entry of the hook's list still holds the file and property id
    that [retryUpload] needs. *)
Definition has_source (u : Hook.UploadStatus) : Prop :=
  Hook.u_file u <> None /\ Hook.u_propertyId u <> None.

End Runs.

(** [apiClient.uploadPropertyImages] (src/src/lib/apiClient.ts, lines
    179-215), as seen by the hook of part_008. *)

Module ApiClient.

Import ImagesPost.

Fixpoint uint_str (d : Decimal.uint) : string :=
  match d with
  | Decimal.Nil => ""
  | Decimal.D0 r => String "0" (uint_str r)
  | Decimal.D1 r => String "1" (uint_str r)
  | Decimal.D2 r => String "2" (uint_str r)
  | Decimal.D3 r => String "3" (uint_str r)
  | Decimal.D4 r => String "4" (uint_str r)
  | Decimal.D5 r => String "5" (uint_str r)
  | Decimal.D6 r => String "6" (uint_str r)
  | Decimal.D7 r => String "7" (uint_str r)
  | Decimal.D8 r => String "8" (uint_str r)
  | Decimal.D9 r => String "9" (uint_str r)
  end.

(** [`${n}`] of an integer. *)
Definition z_str (z : Z) : string :=
  match Z.to_int z with
  | Decimal.Pos u => uint_str u
  | Decimal.Neg u => String "-" (uint_str u)
  end.

(** What the [fetch] of [/properties/:id/images] gives: the answer of the
    POST handler (with the reply's [statusText]), or a thrown value
    ([Some] message for an [Error]). *)
Inductive Fetch :=
| Answered (r : PostResponse) (statusText : string)
| FetchThrew (message : option string).

(** [uploadPropertyImages]: a [Success] is sent with status 200, a
    [Failure] with its status; for the hook only [success],
    [data?.urls] and [error] matter ([data.data || data] is the object
    [{ urls }]). *)
Definition uploadPropertyImages (x : Fetch) : Hook.Response :=
  match x with
  | Answered (Success urls) _ => Hook.mkResp true (Some urls) None
  | Answered (Failure code msg) st =>
      Hook.mkResp false None
        (Some (if String.eqb msg "" then
                 String.append "HTTP " (String.append (z_str code) (String.append ": " st))
               else msg))
  | FetchThrew m =>
      Hook.mkResp false None (Some (match m with Some v => v | None => "Network error" end))
  end.

End ApiClient.

(** ** Concrete inputs used by the witnesses and counterexamples *)

Module Fixtures.

Import UploadManager.

(** An environment with the two R2 keys set and nothing else. *)
Definition env_keys : Env :=
  fun k => if String.eqb k "CLOUDFLARE_R2_ACCESS_KEY_ID" then Some "ak"
           else if String.eqb k "CLOUDFLARE_R2_SECRET_ACCESS_KEY" then Some "sk"
           else None.

Definition png (n : nat) : File := mkFile "photo.png" "image/png" n.
Definition txt : File := mkFile "notes.txt" "text/plain" 0.

Definition cfg_nan : UploadManagerConfig := mkConfig (Some JNaN) None.

(** The manager built from [env_keys] with the default configuration. *)
Definition um0 : UM :=
  mkUM [] [] (JNum 3) "portfolio" ""
    (mkS3 "auto" "https://undefined.r2.cloudflarestorage.com" "ak" "sk")
    [] [] [] 0 [] [] [].

(** The [fetch] of [uploadPropertyImages] rejects (a [TypeError] with
    message ['Failed to fetch'] when the network is down); [apiClient]
    catches it and returns [{ success: false, error }]. *)
Definition fetch_fail : Hook.SOutcome :=
  Hook.Returned (ApiClient.uploadPropertyImages (ApiClient.FetchThrew (Some "Failed to fetch"))).

(** Four files through the hook; the first transfer fails and is
    retried while the fourth file still waits in the loop's queue. *)
Definition hops_retry : list Hook.hop :=
  [Hook.HUploadFiles [png 1; png 2; png 3; png 4] "p";
   Hook.HSettle 0 fetch_fail; Hook.HRetry 1].

End Fixtures.

(** ** Further code of the same files *)

(** Object keys and urls of [UploadManager.uploadFile] (lines 116-118 and
    152) and of [uploadImage] of the image POST handler (part_001). *)

Module Keys.

Local Infix "+++" := String.append (at level 60, right associativity).

(** The pieces of [s.split('.')], built from the text before each dot. *)
Fixpoint split_dot_aux (l : list ascii) (cur : list ascii) : list string :=
  match l with
  | [] => [string_of_list_ascii (rev cur)]
  | c :: r => if Ascii.eqb c "." then string_of_list_ascii (rev cur) :: split_dot_aux r []
              else split_dot_aux r (c :: cur)
  end.

(** [s.split('.')]. *)
Definition split_dot (s : string) : list string := split_dot_aux (list_ascii_of_string s) [].

(** [task.file.name.split('.').pop()]; the array is never empty. *)
Definition fileExtension (name : string) : string := last (split_dot name) "".

(** [`${uuidv4()}.${fileExtension}`]. *)
Definition objectFilename (uuid name : string) : string :=
  uuid +++ "." +++ fileExtension name.

(** [`${this.baseLocation}/${task.propertyId}/${filename}`]. *)
Definition objectKey (baseLocation propertyId uuid name : string) : string :=
  baseLocation +++ "/" +++ propertyId +++ "/" +++ objectFilename uuid name.

(** [`https://${process.env.CLOUDFLARE_R2_PUBLIC_DOMAIN}/${key}`]. *)
Definition publicUrl (e : Env) (key : string) : string :=
  "https://" +++ tpl (e "CLOUDFLARE_R2_PUBLIC_DOMAIN") +++ "/" +++ key.

(** [s.includes(sub)]. *)
Definition includes (s sub : string) : bool :=
  match String.index 0 sub s with Some _ => true | None => false end.

(** The extension [uploadImage] derives from [blob.type]. *)
Definition imageExtension (type : string) : string :=
  if includes type "jpeg" || includes type "jpg" then "jpg"
  else if includes type "webp" then "webp"
  else if includes type "gif" then "gif"
  else "png".

(** [`${propertyId}/${fileName}.${extension}`]. *)
Definition imageKey (propertyId fileName type : string) : string :=
  propertyId +++ "/" +++ fileName +++ "." +++ imageExtension type.

(** The url [uploadImage] returns; [publicDomain] is
    [process.env.CLOUDFLARE_R2_PUBLIC_DOMAIN || 'propertio.tscblogs.com']. *)
Definition imageUrl (e : Env) (propertyId fileName type : string) : string :=
  "https://" +++ env_or e "CLOUDFLARE_R2_PUBLIC_DOMAIN" "propertio.tscblogs.com"
  +++ "/" +++ imageKey propertyId fileName type.

End Keys.


(** The read-only helpers of the hook of part_008. *)

Module HookQueries.

Import Hook.

(** [getCompletedUrls()]. *)
Definition getCompletedUrls (l : list UploadStatus) : list string :=
  map (fun u => match url u with Some v => v | None => "" end)
    (filter (fun u => ustatus_eqb (status u) Completed && truthy (url u)) l).

(** [isAllUploadsComplete()]. *)
Definition isAllUploadsComplete (l : list UploadStatus) : bool :=
  negb (Nat.eqb (List.length l) 0)
  && forallb (fun u => ustatus_eqb (status u) Completed || ustatus_eqb (status u) Error) l.

(** What the updaters of the hook keep of an entry: its progress is a
    multiple of 10 in [0, 100]; it is 0 while [queued], 10 to 90 while
    [uploading] and 100 once [completed]. *)
Definition entry_ok (u : UploadStatus) : Prop :=
  (0 <= progress u <= 100)%Z /\ (progress u mod 10 = 0)%Z
  /\ (status u = Queued -> progress u = 0%Z)
  /\ (status u = Uploading -> (10 <= progress u <= 90)%Z)
  /\ (status u = Completed -> progress u = 100%Z).

(** The ids of the pending [uploadSingleFile] calls that were given the
    [activeUploadsSet] [r]. *)
Definition set_flights (r : nat) (s : HS) : list nat :=
  map fl_uploadId (filter (fun fl => Nat.eqb (fl_set fl) r) (flights s)).

Fixpoint nodupb (l : list nat) : bool :=
  match l with
  | [] => true
  | x :: r => negb (existsb (Nat.eqb x) r) && nodupb r
  end.

(** A call of [uploadFiles] with files of pairwise distinct [uuid]s (any
    other event qualifies). *)
Definition distinct_batch (o : hop) : bool :=
  match o with HUploadFiles fs _ => nodupb (map f_uuid fs) | _ => true end.

(** Each set lists the pending transfers given it, has distinct ids and
    at most [maxConcurrentUploads] of them; transfers and loops refer to
    allocated sets. *)
Definition batch_core (s : HS) : Prop :=
  (forall r, Permutation (set_flights r s) (set_get r s))
  /\ Forall (fun st => NoDup st /\ (List.length st <= maxConcurrentUploads)%nat) (sets s)
  /\ (forall fl, In fl (flights s) -> (fl_set fl < List.length (sets s))%nat).

(** Besides, the ids a loop still has to start are distinct and not in
    its set, and no two loops share a set. *)
Definition batch_inv (s : HS) : Prop :=
  batch_core s
  /\ (forall l, In l (loops s) -> (loopSet l < List.length (sets s))%nat
                /\ NoDup (map snd (fileQueue l) ++ set_get (loopSet l) s))
  /\ NoDup (map loopSet (loops s)).

(** An event that is not a call of [uploadFiles]. *)
Definition not_uploadFiles (o : hop) : bool :=
  match o with HUploadFiles _ _ => false | _ => true end.

End HookQueries.

(** Views of the callbacks the class has invoked. *)

Module Observe.

Import UploadManager.

(** Ids of the [onComplete] and [onError] calls, in order. *)
Definition terminal_ids (cs : list Callback) : list nat :=
  flat_map (fun c => match c with
                     | OnComplete x => [x]
                     | OnError x _ => [x]
                     | OnProgress _ _ => []
                     end) cs.

(** Ids of the [onComplete] calls. *)
Definition completed_ids (cs : list Callback) : list nat :=
  flat_map (fun c => match c with OnComplete x => [x] | _ => [] end) cs.

(** No [onProgress] of a task follows its [onComplete]. *)
Fixpoint quiet_after_complete (cs : list Callback) : Prop :=
  match cs with
  | [] => True
  | OnComplete x :: r => (forall p, ~ In (OnProgress x p) r) /\ quiet_after_complete r
  | _ :: r => quiet_after_complete r
  end.

(** What the callbacks seen so far and the live intervals keep: each
    task ends at most once, and only once it is neither queued nor in
    flight; an interval belongs to a task not completed and holds a
    progress in [0, 100); every [onProgress] value is in [0, 100]; no
    [onProgress] of a task follows its [onComplete]. *)
Definition cb_inv (s : UM) : Prop :=
  NoDup (terminal_ids (emitted s))
  /\ (forall x, In x (terminal_ids (emitted s)) ->
        ~ In x (map id (queue s) ++ map id (inflight s)) /\ (x < seed s)%nat)
  /\ (forall tm, In tm (timers s) ->
        ~ In (tm_task tm) (completed_ids (emitted s))
        /\ 0 <= tm_progress tm /\ tm_progress tm < 100)
  /\ (forall x p, In (OnProgress x p) (emitted s) -> 0 <= p <= 100)
  /\ quiet_after_complete (emitted s).

(** An event that starts no upload by itself: neither [addToQueue] nor
    the settling of an upload. *)
Definition admits_nothing (o : op) : bool :=
  match o with AddToQueue _ _ | Settle _ _ => false | _ => true end.

(** An event that is not a call of [addToQueue]. *)
Definition not_add (o : op) : bool :=
  match o with AddToQueue _ _ => false | _ => true end.

End Observe.

(** * Properties of [UploadManager] *)

Module ClassProofs.

Import UploadManager Runs.

(** ** Numbers *)

Lemma qnat_add (a b : nat) : qnat (a + b) == qnat a + qnat b.
Proof. unfold qnat. rewrite Nat2Z.inj_add, inject_Z_plus. reflexivity. Qed.

Lemma qnat_le (a b : nat) : (a <= b)%nat -> qnat a <= qnat b.
Proof. intros H. unfold qnat. rewrite <- Zle_Qle. lia. Qed.

Lemma splice_count_le (x : Q) (len : nat) :
  0 < x -> qnat (splice_count (JNum x) len) <= x.
Proof.
  intros Hx. simpl.
  destruct (Qle_bool x 0) eqn:E.
  - apply Qle_bool_iff in E. exfalso. apply (Qlt_not_le _ _ Hx E).
  - assert (H0 : (0 <= Qfloor x)%Z).
    { change 0%Z with (Qfloor 0). apply Qfloor_resp_le. apply Qlt_le_weak, Hx. }
    apply Qle_trans with (qnat (Z.to_nat (Qfloor x))).
    + apply qnat_le. lia.
    + unfold qnat. rewrite Z2Nat.id by exact H0. apply Qfloor_le.
Qed.

Lemma splice_count_pos (x : Q) (len : nat) :
  1 <= x -> (0 < len)%nat -> (0 < splice_count (JNum x) len)%nat.
Proof.
  intros Hx Hl. simpl.
  destruct (Qle_bool x 0) eqn:E.
  - apply Qle_bool_iff in E. exfalso.
    apply (Qlt_not_le 0 x); [|exact E].
    apply Qlt_le_trans with 1; [reflexivity|exact Hx].
  - assert (H1 : (1 <= Qfloor x)%Z).
    { change 1%Z with (Qfloor 1). apply Qfloor_resp_le. exact Hx. }
    lia.
Qed.

Lemma clamp_range (v : jsnum) :
  v <> JNaN -> exists q, clampConcurrent v = JNum q /\ 1 <= q /\ q <= 10.
Proof.
  intros Hv. unfold clampConcurrent.
  destruct v as [x| | |]; simpl.
  - destruct (Qle_bool 10 x) eqn:E1; simpl.
    + exists 10. split; [reflexivity|]. split; discriminate.
    + destruct (Qle_bool x 1) eqn:E2.
      * exists 1. split; [reflexivity|]. split; discriminate.
      * exists x. split; [reflexivity|]. split.
        -- apply Qlt_le_weak, Qnot_le_lt.
           intros H. apply Qle_bool_iff in H. congruence.
        -- apply Qlt_le_weak, Qnot_le_lt.
           intros H. apply Qle_bool_iff in H. congruence.
  - contradiction.
  - exists 10. split; [reflexivity|]. split; discriminate.
  - exists 1. split; [reflexivity|]. split; discriminate.
Qed.

(** ** The admission step *)

Lemma set_add_length (x : nat) (l : list nat) :
  (List.length (set_add x l) <= S (List.length l))%nat.
Proof.
  unfold set_add. destruct (existsb (Nat.eqb x) l); [lia|].
  rewrite length_app. simpl. lia.
Qed.

Lemma set_delete_length (x : nat) (l : list nat) :
  (List.length (set_delete x l) <= List.length l)%nat.
Proof. unfold set_delete. apply List.filter_length_le. Qed.

Lemma fold_start_limit (l : list UploadTask) (s : UM) :
  (List.length (activeUploads (fold_left startUpload l s))
     <= List.length (activeUploads s) + List.length l)%nat
  /\ maxConcurrent (fold_left startUpload l s) = maxConcurrent s.
Proof.
  revert s. induction l as [|t l IH]; intros s; simpl.
  - split; [lia|reflexivity].
  - destruct (IH (startUpload s t)) as [H1 H2]. simpl in *.
    pose proof (set_add_length (id t) (activeUploads s)).
    split; [lia|exact H2].
Qed.


Lemma processQueue_within (s : UM) : within s -> within (processQueue s).
Proof.
  intros [q [Hq Hle]]. unfold processQueue.
  destruct (js_ge_nat (List.length (activeUploads s)) (maxConcurrent s)
            || Nat.eqb (List.length (queue s)) 0) eqn:G.
  - exists q. split; assumption.
  - apply orb_false_iff in G as [G1 _].
    cbv zeta. rewrite Hq in G1 |- *. simpl in G1. simpl js_sub_nat.
    assert (Hlt : qnat (List.length (activeUploads s)) < q).
    { apply Qnot_le_lt. intros H. apply Qle_bool_iff in H. congruence. }
    set (n := splice_count (JNum (q - qnat (List.length (activeUploads s))))
                (List.length (queue s))).
    destruct (fold_start_limit (firstn n (queue s)) (set_queue (skipn n (queue s)) s))
      as [H1 H2].
    exists q. split.
    + rewrite H2. simpl. exact Hq.
    + unfold activeCount. simpl in H1.
      assert (Hn : qnat n <= q - qnat (List.length (activeUploads s))).
      { apply splice_count_le.
        apply (Qplus_lt_l _ _ (qnat (List.length (activeUploads s)))).
        ring_simplify. exact Hlt. }
      assert (Hf : (List.length (firstn n (queue s)) <= n)%nat).
      { rewrite length_firstn. lia. }
      apply Qle_trans with (qnat (List.length (activeUploads s) + n)).
      * apply qnat_le. lia.
      * rewrite qnat_add.
        apply (Qplus_le_r _ _ (- qnat (List.length (activeUploads s)))).
        ring_simplify. apply Qle_trans with (1 := Hn). ring_simplify.
        apply Qle_refl.
Qed.

Lemma within_same (s s' : UM) :
  activeUploads s' = activeUploads s -> maxConcurrent s' = maxConcurrent s ->
  within s -> within s'.
Proof.
  intros Ha Hm [q [Hq Hle]]. exists q. unfold activeCount.
  rewrite Ha, Hm. split; assumption.
Qed.

Lemma pushFiles_frame (files : list File) (pid : string) (s : UM) :
  activeUploads (snd (pushFiles files pid s)) = activeUploads s
  /\ maxConcurrent (snd (pushFiles files pid s)) = maxConcurrent s
  /\ inflight (snd (pushFiles files pid s)) = inflight s
  /\ emitted (snd (pushFiles files pid s)) = emitted s.
Proof.
  revert s. induction files as [|f fs IH]; intros s; simpl.
  - repeat split.
  - destruct (pushFiles fs pid _) as [ids s2] eqn:E. simpl.
    specialize (IH (mkUM (queue s ++ [mkTask (seed s) f pid]) (activeUploads s)
                  (maxConcurrent s) (baseLocation s) (bucketName s) (s3Client s)
                  (inflight s) (timers s) (emitted s) (S (seed s))
                  (g_enqueued s ++ [seed s]) (g_admitted s) (g_dropped s))).
    rewrite E in IH. exact IH.
Qed.

Lemma tick_frame (k : nat) (r : Q) (s : UM) :
  activeUploads (tick k r s) = activeUploads s
  /\ maxConcurrent (tick k r s) = maxConcurrent s
  /\ inflight (tick k r s) = inflight s
  /\ queue (tick k r s) = queue s.
Proof.
  unfold tick. destruct (nth_error (timers s) k); [|repeat split].
  destruct (Qle_bool 0 r && negb (Qle_bool 1 r)); [|repeat split].
  destruct (negb (Qle_bool 90 (tm_progress t))); repeat split.
Qed.

Lemma settle_within (k : nat) (o : Outcome) (s : UM) :
  within s -> within (settle k o s).
Proof.
  intros W. unfold settle.
  destruct (nth_error (inflight s) k) as [t|]; [|exact W].
  apply processQueue_within.
  destruct W as [q [Hq Hle]]. exists q.
  destruct o; simpl; split; try exact Hq; unfold activeCount; simpl;
    (apply Qle_trans with (2 := Hle); apply qnat_le; apply set_delete_length).
Qed.

Lemma run_op_within (s : UM) (o : op) :
  within s -> Runs.keeps_limit s o = true -> within (run_op s o).
Proof.
  intros W K. destruct o as [fs pid|k out|k r|c| |x]; simpl.
  - unfold addToQueue. destruct (pushFiles fs pid s) as [ids s1] eqn:E. simpl.
    apply processQueue_within.
    destruct (pushFiles_frame fs pid s) as [H1 [H2 _]]. rewrite E in H1, H2.
    exact (within_same s s1 H1 H2 W).
  - apply settle_within, W.
  - destruct (tick_frame k r s) as [H1 [H2 _]].
    exact (within_same s _ H1 H2 W).
  - unfold Runs.keeps_limit in K. unfold updateConfig.
    destruct (cfg_maxConcurrent c) as [v|].
    + destruct (clampConcurrent v) as [q| | |] eqn:Ec; try discriminate.
      apply Qle_bool_iff in K. exists q. split; [reflexivity|exact K].
    + exact (within_same s _ eq_refl eq_refl W).
  - exact (within_same s _ eq_refl eq_refl W).
  - unfold removeFromQueue. destruct (findIndex x (queue s)); simpl;
      exact (within_same s _ eq_refl eq_refl W).
Qed.

Lemma run_within (ops : list op) (s : UM) :
  within s -> Runs.run_keeps_limit s ops = true -> within (run s ops).
Proof.
  revert s. induction ops as [|o os IH]; intros s W K; simpl in *; [exact W|].
  apply andb_true_iff in K as [K1 K2].
  apply IH; [apply run_op_within|]; assumption.
Qed.

Lemma construct_within (e : Env) (cfg : option UploadManagerConfig) (s : UM) :
  construct e cfg = Ok s -> Runs.config_no_nan cfg = true -> within s.
Proof.
  unfold construct. intros H Hn.
  destruct (_ || _); [discriminate|]. injection H as <-.
  unfold within, activeCount. simpl.
  destruct cfg as [c|]; simpl in Hn.
  - destruct (cfg_maxConcurrent c) as [v|].
    + destruct (clamp_range v) as [q [Hq [H1 _]]].
      { intros ->. discriminate. }
      exists q. rewrite Hq. split; [reflexivity|].
      apply Qle_trans with 1; [discriminate|exact H1].
    + exists 3. split; [reflexivity|discriminate].
  - exists 3. split; [reflexivity|discriminate].
Qed.

(** ** Admission order *)

Lemma notin_true (X : list nat) (y : nat) : ~ In y X -> notin X y = true.
Proof.
  intros H. unfold notin. apply negb_true_iff.
  destruct (existsb (Nat.eqb y) X) eqn:E; [|reflexivity].
  apply existsb_exists in E as [z [Hz Ez]]. apply Nat.eqb_eq in Ez. subst.
  contradiction.
Qed.

Lemma notin_false (X : list nat) (y : nat) : In y X -> notin X y = false.
Proof.
  intros H. unfold notin. apply negb_false_iff, existsb_exists.
  exists y. split; [exact H|apply Nat.eqb_refl].
Qed.

Lemma notin_app (X Y : list nat) (y : nat) :
  notin (X ++ Y) y = notin X y && notin Y y.
Proof. unfold notin. rewrite existsb_app. apply negb_orb. Qed.

Lemma filter_notin_id (X l : list nat) :
  (forall y, In y l -> ~ In y X) -> filter (notin X) l = l.
Proof.
  induction l as [|a l IH]; intros H; simpl; [reflexivity|].
  rewrite notin_true by (apply H; left; reflexivity).
  f_equal. apply IH. intros y Hy. apply H. right. exact Hy.
Qed.

Lemma filter_notin_self (l : list nat) : filter (notin l) l = [].
Proof.
  assert (G : forall X, incl l X -> filter (notin X) l = []).
  { induction l as [|a l IH]; intros X Hi; simpl; [reflexivity|].
    rewrite notin_false by (apply Hi; left; reflexivity).
    apply IH. intros y Hy. apply Hi. right. exact Hy. }
  apply G, incl_refl.
Qed.

Lemma filter_notin_twice (D X l : list nat) :
  filter (notin X) (filter (notin D) l) = filter (notin (D ++ X)) l.
Proof.
  induction l as [|a l IH]; simpl; [reflexivity|].
  rewrite notin_app.
  destruct (notin D a); simpl; [destruct (notin X a); simpl|]; rewrite ?IH; reflexivity.
Qed.

Lemma nodup_app_disj (l1 l2 : list nat) (x : nat) :
  NoDup (l1 ++ l2) -> In x l1 -> ~ In x l2.
Proof.
  induction l1 as [|a l1 IH]; intros Hn Hx; simpl in *; [contradiction|].
  inversion Hn as [|b l Hb Hn' Heq]; subst.
  destruct Hx as [<-|Hx].
  - intros H. apply Hb. apply in_or_app. right. exact H.
  - apply IH; assumption.
Qed.

Lemma forall_lt_notin (n : nat) (D : list nat) :
  Forall (fun x => (x < n)%nat) D -> ~ In n D.
Proof.
  intros H Hin. rewrite Forall_forall in H. specialize (H n Hin). lia.
Qed.

Lemma forall_lt_mono (n m : nat) (D : list nat) :
  (n <= m)%nat -> Forall (fun x => (x < n)%nat) D -> Forall (fun x => (x < m)%nat) D.
Proof. intros Hle. apply Forall_impl. intros x Hx. lia. Qed.

Lemma fifo_same (s s' : UM) :
  queue s' = queue s -> g_enqueued s' = g_enqueued s ->
  g_admitted s' = g_admitted s -> g_dropped s' = g_dropped s ->
  seed s' = seed s -> fifo s -> fifo s'.
Proof.
  intros H1 H2 H3 H4 H5 F. unfold fifo in *.
  rewrite H1, H2, H3, H4, H5. exact F.
Qed.

Lemma fold_start_logs (l : list UploadTask) (s : UM) :
  g_admitted (fold_left startUpload l s) = g_admitted s ++ map id l
  /\ g_enqueued (fold_left startUpload l s) = g_enqueued s
  /\ g_dropped (fold_left startUpload l s) = g_dropped s
  /\ queue (fold_left startUpload l s) = queue s
  /\ (seed s <= seed (fold_left startUpload l s))%nat.
Proof.
  revert s. induction l as [|t l IH]; intros s; simpl.
  - rewrite app_nil_r. repeat split. lia.
  - destruct (IH (startUpload s t)) as [H1 [H2 [H3 [H4 H5]]]].
    simpl in *. rewrite H1, <- app_assoc. repeat split; try assumption. lia.
Qed.

Lemma processQueue_fifo (s : UM) : fifo s -> fifo (processQueue s).
Proof.
  intros F. unfold processQueue.
  destruct (_ || _); [exact F|]. cbv zeta.
  set (n := splice_count _ _).
  destruct (fold_start_logs (firstn n (queue s)) (set_queue (skipn n (queue s)) s))
    as [H1 [H2 [H3 [H4 H5]]]].
  destruct F as [E [N [L1 L2]]]. simpl in *.
  unfold fifo. rewrite H1, H2, H3, H4.
  split; [|split; [exact N|split]].
  - rewrite <- app_assoc, <- map_app, firstn_skipn. exact E.
  - exact (forall_lt_mono _ _ _ H5 L1).
  - exact (forall_lt_mono _ _ _ H5 L2).
Qed.

Lemma push_fifo (files : list File) (pid : string) (s : UM) :
  fifo s -> fifo (snd (pushFiles files pid s)).
Proof.
  revert s. induction files as [|f fs IH]; intros s F; simpl; [exact F|].
  match goal with |- context [pushFiles fs pid ?s1] =>
    specialize (IH s1); destruct (pushFiles fs pid s1) end.
  simpl. apply IH.
  destruct F as [E [N [L1 L2]]]. unfold fifo. simpl.
  split; [|split; [|split]].
  - rewrite map_app, app_assoc, E, filter_app. simpl.
    rewrite notin_true by exact (forall_lt_notin _ _ L2). reflexivity.
  - apply NoDup_app; [exact N|constructor; [intros []|constructor]|].
    intros x Hx [<-|[]]. exact (forall_lt_notin _ _ L1 Hx).
  - apply Forall_app. split; [exact (forall_lt_mono _ _ _ (Nat.le_succ_diag_r _) L1)|].
    constructor; [lia|constructor].
  - exact (forall_lt_mono _ _ _ (Nat.le_succ_diag_r _) L2).
Qed.

Lemma fifo_queue_lt (s : UM) :
  fifo s -> Forall (fun x => (x < seed s)%nat) (map id (queue s)).
Proof.
  intros [E [_ [L1 _]]]. rewrite Forall_forall in *. intros x Hx.
  apply L1. assert (Hin : In x (filter (notin (g_dropped s)) (g_enqueued s))).
  { rewrite <- E. apply in_or_app. right. exact Hx. }
  apply filter_In in Hin. apply Hin.
Qed.

Lemma fifo_nodup (s : UM) : fifo s -> NoDup (g_admitted s ++ map id (queue s)).
Proof. intros [E [N _]]. rewrite E. apply NoDup_filter, N. Qed.

Lemma clearQueue_fifo (s : UM) : fifo s -> fifo (clearQueue s).
Proof.
  intros F. pose proof (fifo_queue_lt s F) as LQ. pose proof (fifo_nodup s F) as ND.
  destruct F as [E [N [L1 L2]]]. unfold fifo, clearQueue. simpl.
  split; [|split; [exact N|split; [exact L1|]]].
  - rewrite app_nil_r, <- filter_notin_twice, <- E, filter_app, filter_notin_self,
      app_nil_r.
    symmetry. apply filter_notin_id. intros y Hy. exact (nodup_app_disj _ _ _ ND Hy).
  - apply Forall_app. split; assumption.
Qed.

Lemma findIndex_remove (x : nat) (q : list UploadTask) (i : nat) :
  NoDup (map id q) -> findIndex x q = Some i ->
  map id (remove_nth i q) = filter (notin [x]) (map id q) /\ In x (map id q).
Proof.
  revert i. induction q as [|t q IH]; intros i Hn Hf; simpl in *; [discriminate|].
  inversion Hn as [|a l Ha Hn' Heq]; subst.
  destruct (Nat.eqb (id t) x) eqn:Ex.
  - injection Hf as <-. apply Nat.eqb_eq in Ex. subst. simpl.
    rewrite notin_false by (left; reflexivity). split; [|left; reflexivity].
    symmetry. apply filter_notin_id. intros y Hy [<-|[]]. contradiction.
  - destruct (findIndex x q) as [j|] eqn:Ej; [|discriminate].
    injection Hf as <-. simpl.
    destruct (IH j Hn' eq_refl) as [H1 H2].
    rewrite notin_true.
    + rewrite H1. split; [reflexivity|right; exact H2].
    + intros [Hx|[]]. subst. rewrite Nat.eqb_refl in Ex. discriminate.
Qed.

Lemma removeFromQueue_fifo (x : nat) (s : UM) :
  fifo s -> fifo (snd (removeFromQueue x s)).
Proof.
  intros F. pose proof (fifo_queue_lt s F) as LQ. pose proof (fifo_nodup s F) as ND.
  unfold removeFromQueue.
  destruct (findIndex x (queue s)) as [i|] eqn:Ef; simpl; [|exact F].
  assert (NQ : NoDup (map id (queue s))).
  { apply NoDup_app_remove_l in ND. exact ND. }
  destruct (findIndex_remove x (queue s) i NQ Ef) as [H1 H2].
  destruct F as [E [N [L1 L2]]]. unfold fifo. simpl.
  split; [|split; [exact N|split; [exact L1|]]].
  - rewrite H1, <- filter_notin_twice, <- E, filter_app. f_equal.
    symmetry. apply filter_notin_id. intros y Hy [<-|[]].
    exact (nodup_app_disj _ _ _ ND Hy H2).
  - apply Forall_app. split; [exact L2|].
    constructor; [|constructor]. rewrite Forall_forall in LQ. apply LQ, H2.
Qed.

Lemma settle_fifo (k : nat) (o : Outcome) (s : UM) : fifo s -> fifo (settle k o s).
Proof.
  intros F. unfold settle. destruct (nth_error (inflight s) k); [|exact F].
  apply processQueue_fifo. apply (fifo_same s); destruct o; reflexivity || exact F.
Qed.

Lemma tick_logs (k : nat) (r : Q) (s : UM) :
  queue (tick k r s) = queue s /\ g_enqueued (tick k r s) = g_enqueued s
  /\ g_admitted (tick k r s) = g_admitted s /\ g_dropped (tick k r s) = g_dropped s
  /\ seed (tick k r s) = seed s.
Proof.
  unfold tick. destruct (nth_error (timers s) k); [|repeat split].
  destruct (Qle_bool 0 r && negb (Qle_bool 1 r)); [|repeat split].
  destruct (negb (Qle_bool 90 (tm_progress t))); repeat split.
Qed.

Lemma run_fifo (ops : list op) (s : UM) : fifo s -> fifo (run s ops).
Proof.
  revert s. induction ops as [|o os IH]; intros s F; simpl; [exact F|].
  apply IH. destruct o as [fs pid|k out|k r|c| |x]; simpl.
  - unfold addToQueue. pose proof (push_fifo fs pid s F) as P.
    destruct (pushFiles fs pid s). simpl in *. apply processQueue_fifo, P.
  - apply settle_fifo, F.
  - destruct (ClassProofs.tick_logs k r s) as [H1 [H2 [H3 [H4 H5]]]].
    exact (fifo_same s _ H1 H2 H3 H4 H5 F).
  - apply (fifo_same s); reflexivity || exact F.
  - apply clearQueue_fifo, F.
  - apply removeFromQueue_fifo, F.
Qed.

Lemma construct_fresh (e : Env) (cfg : option UploadManagerConfig) (s : UM) :
  construct e cfg = Ok s ->
  queue s = [] /\ activeUploads s = [] /\ inflight s = [] /\ g_enqueued s = []
  /\ g_admitted s = [] /\ g_dropped s = [].
Proof.
  unfold construct. destruct (_ || _); [discriminate|].
  intros H. injection H as <-. repeat split.
Qed.

Lemma construct_fifo (e : Env) (cfg : option UploadManagerConfig) (s : UM) :
  construct e cfg = Ok s -> fifo s.
Proof.
  intros H. destruct (construct_fresh e cfg s H) as [H1 [_ [_ [H4 [H5 H6]]]]].
  unfold fifo. rewrite H1, H4, H5, H6. repeat constructor.
Qed.

(** ** Slot accounting *)

Lemma set_delete_notin (x : nat) (l : list nat) : ~ In x l -> set_delete x l = l.
Proof.
  induction l as [|a l IH]; intros H; simpl; [reflexivity|].
  destruct (Nat.eqb x a) eqn:E.
  - apply Nat.eqb_eq in E. subst. exfalso. apply H. left. reflexivity.
  - simpl. f_equal. apply IH. intros Hx. apply H. right. exact Hx.
Qed.

Lemma remove_nth_delete (l : list UploadTask) (k : nat) (t : UploadTask) :
  NoDup (map id l) -> nth_error l k = Some t ->
  map id (remove_nth k l) = set_delete (id t) (map id l).
Proof.
  revert k. induction l as [|a l IH]; intros k Hn Hk; [destruct k; discriminate|].
  inversion Hn as [|b m Hb Hn' Heq]; subst.
  destruct k as [|k]; simpl in *.
  - injection Hk as <-. rewrite Nat.eqb_refl. simpl.
    symmetry. apply set_delete_notin. exact Hb.
  - rewrite (IH k Hn' Hk).
    assert (Hne : Nat.eqb (id t) (id a) = false).
    { apply Nat.eqb_neq. intros He. apply Hb. rewrite <- He.
      apply in_map. apply nth_error_In with k. exact Hk. }
    rewrite Hne. reflexivity.
Qed.

Lemma remove_nth_perm {A} (l : list A) (k : nat) (a : A) :
  nth_error l k = Some a -> Permutation l (a :: remove_nth k l).
Proof.
  revert k. induction l as [|b l IH]; intros k Hk; [destruct k; discriminate|].
  destruct k as [|k]; simpl in *.
  - injection Hk as <-. reflexivity.
  - eapply perm_trans; [apply perm_skip, (IH k Hk)|]. apply perm_swap.
Qed.

Lemma findIndex_nth (x : nat) (q : list UploadTask) (i : nat) :
  findIndex x q = Some i -> exists t, nth_error q i = Some t /\ id t = x.
Proof.
  revert i. induction q as [|t q IH]; intros i H; simpl in *; [discriminate|].
  destruct (Nat.eqb (id t) x) eqn:E.
  - injection H as <-. exists t. split; [reflexivity|]. apply Nat.eqb_eq, E.
  - destruct (findIndex x q) as [j|] eqn:Ej; [|discriminate].
    injection H as <-. apply (IH j eq_refl).
Qed.

Lemma fold_start_frame (l : list UploadTask) (s : UM) :
  inflight (fold_left startUpload l s) = inflight s ++ l
  /\ queue (fold_left startUpload l s) = queue s
  /\ maxConcurrent (fold_left startUpload l s) = maxConcurrent s
  /\ (seed s <= seed (fold_left startUpload l s))%nat.
Proof.
  revert s. induction l as [|t l IH]; intros s; simpl.
  - rewrite app_nil_r. repeat split. lia.
  - destruct (IH (startUpload s t)) as [H1 [H2 [H3 H4]]].
    simpl in *. rewrite H1, <- app_assoc. repeat split; try assumption. lia.
Qed.

Lemma fold_start_active (l : list UploadTask) (s : UM) :
  activeUploads s = map id (inflight s) ->
  NoDup (map id l ++ map id (inflight s)) ->
  activeUploads (fold_left startUpload l s) = map id (inflight (fold_left startUpload l s)).
Proof.
  revert s. induction l as [|t l IH]; intros s Ha Hn; simpl; [exact Ha|].
  apply IH.
  - simpl. rewrite Ha, map_app. unfold set_add.
    destruct (existsb (Nat.eqb (id t)) (map id (inflight s))) eqn:E; [|reflexivity].
    exfalso. apply existsb_exists in E as [y [Hy Ey]]. apply Nat.eqb_eq in Ey. subst.
    inversion Hn as [|b m Hb Hm Heq]. apply Hb. apply in_or_app. right. exact Hy.
  - simpl. rewrite map_app. simpl in Hn.
    apply Permutation_NoDup with (id t :: map id l ++ map id (inflight s)); [|exact Hn].
    rewrite app_assoc. apply Permutation_cons_append.
Qed.

Lemma processQueue_max (s : UM) : maxConcurrent (processQueue s) = maxConcurrent s.
Proof.
  unfold processQueue. destruct (_ || _); [reflexivity|]. cbv zeta.
  destruct (fold_start_frame (firstn (splice_count (js_sub_nat (maxConcurrent s)
              (List.length (activeUploads s))) (List.length (queue s))) (queue s))
              (set_queue (skipn (splice_count (js_sub_nat (maxConcurrent s)
              (List.length (activeUploads s))) (List.length (queue s))) (queue s)) s))
    as [_ [_ [H _]]].
  exact H.
Qed.

Lemma forall_perm (P : nat -> Prop) (l l' : list nat) :
  Permutation l l' -> Forall P l -> Forall P l'.
Proof.
  intros Hp H. rewrite Forall_forall in *. intros x Hx.
  apply H. apply Permutation_in with l'; [symmetry; exact Hp|exact Hx].
Qed.

Lemma processQueue_slots (s : UM) : slots s -> slots (processQueue s).
Proof.
  intros Sl. unfold processQueue.
  destruct (_ || _); [exact Sl|]. cbv zeta.
  set (n := splice_count _ _).
  destruct Sl as [Ha [Hn Hl]].
  set (s1 := set_queue (skipn n (queue s)) s).
  destruct (fold_start_frame (firstn n (queue s)) s1) as [F1 [F2 [_ F4]]].
  assert (P : Permutation (map id (queue s) ++ map id (inflight s))
                (map id (skipn n (queue s)) ++ map id (inflight s ++ firstn n (queue s)))).
  { rewrite <- (firstn_skipn n (queue s)) at 1.
    rewrite !map_app, <- !app_assoc.
    eapply perm_trans; [apply Permutation_app_comm|].
    rewrite <- app_assoc. reflexivity. }
  split; [|split].
  - apply fold_start_active.
    + exact Ha.
    + simpl. pose proof (Permutation_NoDup P Hn) as Hn'.
      apply NoDup_app_remove_l in Hn'. rewrite map_app in Hn'.
      exact (Permutation_NoDup (Permutation_app_comm _ _) Hn').
  - rewrite F1, F2. simpl. exact (Permutation_NoDup P Hn).
  - rewrite F1, F2. simpl. apply (forall_perm _ _ _ P).
    exact (forall_lt_mono _ _ _ F4 Hl).
Qed.

Lemma push_slots (files : list File) (pid : string) (s : UM) :
  slots s -> slots (snd (pushFiles files pid s)).
Proof.
  revert s. induction files as [|f fs IH]; intros s Sl; simpl; [exact Sl|].
  match goal with |- context [pushFiles fs pid ?s1] =>
    specialize (IH s1); destruct (pushFiles fs pid s1) end.
  simpl. apply IH.
  destruct Sl as [Ha [Hn Hl]]. unfold slots. simpl.
  assert (P : Permutation (seed s :: map id (queue s) ++ map id (inflight s))
                (map id (queue s ++ [mkTask (seed s) f pid]) ++ map id (inflight s))).
  { rewrite map_app. simpl. rewrite <- app_assoc. simpl.
    apply Permutation_middle. }
  split; [exact Ha|split].
  - apply (Permutation_NoDup P). constructor; [|exact Hn].
    exact (forall_lt_notin _ _ Hl).
  - apply (forall_perm _ _ _ P). constructor; [lia|].
    exact (forall_lt_mono _ _ _ (Nat.le_succ_diag_r _) Hl).
Qed.

(** [settle] either does nothing or runs [processQueue] on a state where
    the settled upload has given back its slot. *)
Lemma settle_cases (k : nat) (o : Outcome) (s : UM) :
  slots s ->
  settle k o s = s
  \/ exists s2, settle k o s = processQueue s2 /\ slots s2
       /\ maxConcurrent s2 = maxConcurrent s
       /\ queue s2 = queue s
       /\ List.length (inflight s2) = pred (List.length (inflight s)).
Proof.
  intros [Ha [Hn Hl]]. unfold settle.
  destruct (nth_error (inflight s) k) as [t|] eqn:Ek; [right|left; reflexivity].
  assert (NI : NoDup (map id (inflight s))) by (eapply NoDup_app_remove_l; exact Hn).
  assert (P : Permutation (map id (inflight s)) (id t :: map id (remove_nth k (inflight s)))).
  { change (id t :: map id (remove_nth k (inflight s)))
      with (map id (t :: remove_nth k (inflight s))).
    apply Permutation_map, remove_nth_perm, Ek. }
  assert (G : forall m b bn c tm em ge ga gd,
            slots (mkUM (queue s) (set_delete (id t) (activeUploads s)) m b bn c
                     (remove_nth k (inflight s)) tm em (seed s) ge ga gd)).
  { intros. unfold slots. simpl.
    split; [|split].
    - rewrite Ha. symmetry. apply remove_nth_delete; assumption.
    - pose proof (Permutation_NoDup (Permutation_app_head _ P) Hn) as Hn'.
      apply NoDup_remove_1 in Hn'. exact Hn'.
    - apply (forall_perm _ _ _ (Permutation_app_head _ P)) in Hl.
      rewrite Forall_app in Hl |- *. destruct Hl as [H1 H2].
      inversion H2. split; assumption. }
  assert (L : List.length (remove_nth k (inflight s)) = pred (List.length (inflight s))).
  { apply Permutation_length in P. simpl in P. rewrite !length_map in P. lia. }
  destruct o.
  - eexists. split; [reflexivity|].
    split; [apply G|]. split; [reflexivity|]. split; [reflexivity|]. exact L.
  - eexists. split; [reflexivity|].
    split; [apply G|]. split; [reflexivity|]. split; [reflexivity|]. exact L.
Qed.

Lemma tick_slots (k : nat) (r : Q) (s : UM) : slots s -> slots (tick k r s).
Proof.
  intros Sl. destruct (tick_frame k r s) as [H1 [_ [H3 H4]]].
  destruct (ClassProofs.tick_logs k r s) as [_ [_ [_ [_ H5]]]].
  unfold slots in *. rewrite H1, H3, H4, H5. exact Sl.
Qed.

Lemma clearQueue_slots (s : UM) : slots s -> slots (clearQueue s).
Proof.
  intros [Ha [Hn Hl]]. unfold slots, clearQueue. simpl.
  split; [exact Ha|split].
  - apply NoDup_app_remove_l in Hn. exact Hn.
  - rewrite Forall_app in Hl. apply Hl.
Qed.

Lemma removeFromQueue_slots (x : nat) (s : UM) :
  slots s -> slots (snd (removeFromQueue x s)).
Proof.
  intros Sl. unfold removeFromQueue.
  destruct (findIndex x (queue s)) as [i|] eqn:Ef; simpl; [|exact Sl].
  destruct (findIndex_nth x (queue s) i Ef) as [t [Ht _]].
  destruct Sl as [Ha [Hn Hl]]. unfold slots. simpl.
  assert (P : Permutation (map id (queue s) ++ map id (inflight s))
                ((id t :: map id (remove_nth i (queue s))) ++ map id (inflight s))).
  { apply Permutation_app_tail.
    change (id t :: map id (remove_nth i (queue s)))
      with (map id (t :: remove_nth i (queue s))).
    apply Permutation_map, remove_nth_perm, Ht. }
  split; [exact Ha|split].
  - pose proof (Permutation_NoDup P Hn) as Hn'. simpl in Hn'. inversion Hn'. assumption.
  - apply (forall_perm _ _ _ P) in Hl. simpl in Hl. inversion Hl. assumption.
Qed.

Lemma run_op_slots (s : UM) (o : op) : slots s -> slots (run_op s o).
Proof.
  intros Sl. destruct o as [fs pid|k out|k r|c| |x]; simpl.
  - unfold addToQueue. pose proof (push_slots fs pid s Sl) as P.
    destruct (pushFiles fs pid s). simpl in *. apply processQueue_slots, P.
  - destruct (settle_cases k out s Sl) as [->|[s2 [-> [S2 _]]]];
      [exact Sl|apply processQueue_slots, S2].
  - apply tick_slots, Sl.
  - exact Sl.
  - apply clearQueue_slots, Sl.
  - apply removeFromQueue_slots, Sl.
Qed.

(** ** Draining *)

Lemma processQueue_drains (s : UM) (q : Q) :
  slots s -> maxConcurrent s = JNum q -> 1 <= q ->
  inflight (processQueue s) = [] -> queue (processQueue s) = [].
Proof.
  intros [Ha _] Hq H1. unfold processQueue.
  destruct (js_ge_nat (List.length (activeUploads s)) (maxConcurrent s)
            || Nat.eqb (List.length (queue s)) 0) eqn:G.
  - intros HI. apply orb_true_iff in G as [G|G].
    + exfalso. rewrite Ha, HI, Hq in G. simpl in G. apply Qle_bool_iff in G.
      apply (Qlt_not_le 0 q); [apply Qlt_le_trans with 1; [reflexivity|exact H1]|exact G].
    + apply Nat.eqb_eq, length_zero_iff_nil in G. exact G.
  - apply orb_false_iff in G as [_ G]. cbv zeta.
    set (n := splice_count _ _).
    destruct (fold_start_frame (firstn n (queue s)) (set_queue (skipn n (queue s)) s))
      as [F1 _].
    rewrite F1. simpl. intros HI. exfalso.
    apply app_eq_nil in HI as [HI HF].
    assert (Hn : (0 < n)%nat).
    { unfold n. rewrite Ha, HI, Hq. simpl js_sub_nat. apply splice_count_pos.
      - apply Qle_trans with (1 := H1). unfold qnat. simpl.
        apply Qle_lteq. right. ring.
      - apply Nat.eqb_neq in G. lia. }
    apply (f_equal (@List.length UploadTask)) in HF. rewrite length_firstn in HF.
    apply Nat.eqb_neq in G. simpl in HF. lia.
Qed.

Lemma run_op_drained (s : UM) (o : op) :
  slots s -> drained s -> Runs.op_no_nan o = true -> drained (run_op s o).
Proof.
  intros Sl [q [Hq [H1 Hd]]] Hnn. destruct o as [fs pid|k out|k r|c| |x]; simpl.
  - unfold addToQueue. pose proof (push_slots fs pid s Sl) as P.
    destruct (pushFiles_frame fs pid s) as [_ [M _]].
    destruct (pushFiles fs pid s) as [ids s1]. simpl in *.
    exists q. rewrite processQueue_max, M. split; [exact Hq|split; [exact H1|]].
    apply (processQueue_drains s1 q P); [rewrite M; exact Hq|exact H1].
  - destruct (settle_cases k out s Sl) as [->|[s2 [-> [S2 [M2 _]]]]].
    + exists q. split; [exact Hq|split; [exact H1|exact Hd]].
    + exists q. rewrite processQueue_max, M2. split; [exact Hq|split; [exact H1|]].
      apply (processQueue_drains s2 q S2); [rewrite M2; exact Hq|exact H1].
  - destruct (tick_frame k r s) as [_ [M [I Qu]]].
    exists q. rewrite M, I, Qu. split; [exact Hq|split; [exact H1|exact Hd]].
  - unfold updateConfig. simpl in Hnn.
    destruct (cfg_maxConcurrent c) as [v|].
    + destruct (clamp_range v) as [q' [Hq' [H1' _]]].
      { intros ->. discriminate. }
      exists q'. simpl. split; [exact Hq'|split; [exact H1'|exact Hd]].
    + exists q. simpl. split; [exact Hq|split; [exact H1|exact Hd]].
  - exists q. simpl. split; [exact Hq|split; [exact H1|reflexivity]].
  - unfold removeFromQueue. destruct (findIndex x (queue s)) as [i|]; simpl.
    + exists q. split; [exact Hq|split; [exact H1|]].
      intros HI. rewrite (Hd HI). destruct i; reflexivity.
    + exists q. split; [exact Hq|split; [exact H1|exact Hd]].
Qed.

Lemma run_slots_drained (ops : list op) (s : UM) :
  slots s -> drained s -> forallb Runs.op_no_nan ops = true ->
  slots (run s ops) /\ drained (run s ops).
Proof.
  revert s. induction ops as [|o os IH]; intros s Sl Dr Hn; simpl in *.
  - split; assumption.
  - apply andb_true_iff in Hn as [Hn1 Hn2].
    apply IH; [apply run_op_slots, Sl|apply run_op_drained; assumption|exact Hn2].
Qed.

Lemma construct_slots_drained (e : Env) (cfg : option UploadManagerConfig) (s : UM) :
  construct e cfg = Ok s -> Runs.config_no_nan cfg = true -> slots s /\ drained s.
Proof.
  intros H Hn.
  destruct (construct_fresh e cfg s H) as [H1 [H2 [H3 _]]].
  destruct (construct_within e cfg s H Hn) as [q [Hq _]].
  split.
  - unfold slots. rewrite H1, H2, H3. repeat constructor.
  - unfold construct in H. destruct (_ || _); [discriminate|].
    injection H as <-. simpl in *.
    exists q. split; [exact Hq|split; [|intros _; reflexivity]].
    destruct cfg as [c|]; simpl in *.
    + destruct (cfg_maxConcurrent c) as [v|].
      * destruct (clamp_range v) as [q' [Hq' [H1' _]]].
        { intros ->. discriminate. }
        rewrite Hq' in Hq. injection Hq as <-. exact H1'.
      * injection Hq as <-. discriminate.
    + injection Hq as <-. discriminate.
Qed.

(** ** C1 *)

(** C1 (amended).  In [UploadManager] all [addToQueue] calls share one
    queue and one [activeUploads] set, and in every state reachable from a
    constructed manager the number of active uploads is at most
    [maxConcurrent], provided no [updateConfig] sets the limit to NaN or
    below the number of uploads then in flight. *)
Theorem active_within_limit (e : Env) (cfg : option UploadManagerConfig)
  (s0 : UM) (ops : list op) :
  construct e cfg = Ok s0 ->
  config_no_nan cfg = true ->
  run_keeps_limit s0 ops = true ->
  exists q, maxConcurrent (run s0 ops) = JNum q
            /\ qnat (activeCount (run s0 ops)) <= q.
Proof.
  intros Hc Hn Hk. apply run_within; [|exact Hk].
  exact (construct_within e cfg s0 Hc Hn).
Qed.

Lemma active_within_limit_witness :
  exists q, maxConcurrent (run Fixtures.um0
              [AddToQueue [Fixtures.png 1; Fixtures.png 2; Fixtures.png 3;
                           Fixtures.png 4] "p";
               Settle 0 (SendFail "x"); UpdateConfig (mkConfig (Some (JNum 5)) None)])
            = JNum q
         /\ qnat (activeCount (run Fixtures.um0
              [AddToQueue [Fixtures.png 1; Fixtures.png 2; Fixtures.png 3;
                           Fixtures.png 4] "p";
               Settle 0 (SendFail "x"); UpdateConfig (mkConfig (Some (JNum 5)) None)]))
            <= q.
Proof.
  apply (active_within_limit Fixtures.env_keys None); reflexivity.
Defined.

(** ** [addToQueue] *)

Lemma push_spec (files : list File) (pid : string) (s : UM) :
  fst (pushFiles files pid s) = seq (seed s) (List.length files)
  /\ (exists ts, queue (snd (pushFiles files pid s)) = queue s ++ ts
                 /\ map id ts = fst (pushFiles files pid s))
  /\ g_enqueued (snd (pushFiles files pid s)) = g_enqueued s ++ fst (pushFiles files pid s)
  /\ g_dropped (snd (pushFiles files pid s)) = g_dropped s
  /\ seed (snd (pushFiles files pid s)) = (seed s + List.length files)%nat.
Proof.
  revert s. induction files as [|f fs IH]; intros s; simpl.
  - split; [reflexivity|]. split; [exists []; split; [symmetry; apply app_nil_r|reflexivity]|].
    rewrite app_nil_r. repeat split. lia.
  - match goal with |- context [pushFiles fs pid ?s1] =>
      destruct (IH s1) as [H1 [[ts [H2 H3]] [H4 [H5 H6]]]];
      destruct (pushFiles fs pid s1) as [ids s2] end.
    simpl in *. rewrite H1.
    split; [reflexivity|]. split.
    + exists (mkTask (seed s) f pid :: ts). rewrite H2, <- app_assoc.
      split; [reflexivity|]. simpl. rewrite H3, H1. reflexivity.
    + rewrite H4, H1, <- app_assoc. repeat split; [exact H5|lia].
Qed.

Lemma processQueue_keeps (s : UM) (x : nat) :
  In x (map id (queue s)) ->
  In x (map id (queue (processQueue s))) \/ In x (map id (inflight (processQueue s))).
Proof.
  intros H. unfold processQueue. destruct (_ || _); [left; exact H|]. cbv zeta.
  set (n := splice_count _ _).
  destruct (fold_start_frame (firstn n (queue s)) (set_queue (skipn n (queue s)) s))
    as [F1 [F2 _]].
  rewrite F1, F2. simpl.
  rewrite <- (firstn_skipn n (queue s)), map_app in H.
  apply in_app_or in H as [H|H]; [right|left; exact H].
  rewrite map_app. apply in_or_app. right. exact H.
Qed.

Lemma fold_start_enq (l : list UploadTask) (s : UM) :
  g_enqueued (fold_left startUpload l s) = g_enqueued s
  /\ emitted (fold_left startUpload l s) = emitted s.
Proof.
  revert s. induction l as [|t l IH]; intros s; simpl; [split; reflexivity|].
  destruct (IH (startUpload s t)) as [H1 H2]. rewrite H1, H2. split; reflexivity.
Qed.

Lemma processQueue_logs (s : UM) :
  g_enqueued (processQueue s) = g_enqueued s /\ emitted (processQueue s) = emitted s.
Proof.
  unfold processQueue. destruct (_ || _); [split; reflexivity|]. cbv zeta.
  rewrite !(proj1 (fold_start_enq _ _)), !(proj2 (fold_start_enq _ _)).
  split; reflexivity.
Qed.

(** C5.  [addToQueue] creates one task per file, pushes them at the tail
    of the shared queue and returns as many ids, pairwise distinct and new;
    it runs to its end without waiting for any transfer: no callback has
    been invoked when it returns, and every new task is then either still
    queued or started. *)
Theorem addToQueue_tasks (s : UM) (files : list File) (pid : string) :
  fifo s ->
  List.length (fst (addToQueue s files pid)) = List.length files
  /\ NoDup (fst (addToQueue s files pid))
  /\ (forall x, In x (fst (addToQueue s files pid)) -> ~ In x (g_enqueued s))
  /\ g_enqueued (snd (addToQueue s files pid)) = g_enqueued s ++ fst (addToQueue s files pid)
  /\ emitted (snd (addToQueue s files pid)) = emitted s
  /\ (forall x, In x (fst (addToQueue s files pid)) ->
        In x (map id (queue (snd (addToQueue s files pid))))
        \/ In x (map id (inflight (snd (addToQueue s files pid))))).
Proof.
  intros [_ [_ [L1 _]]]. unfold addToQueue.
  destruct (push_spec files pid s) as [H1 [[ts [H2 H3]] [H4 [_ _]]]].
  destruct (pushFiles_frame files pid s) as [_ [_ [_ E]]].
  destruct (pushFiles files pid s) as [ids s1]. simpl in *.
  destruct (processQueue_logs s1) as [P1 P2].
  split; [rewrite H1; apply length_seq|].
  split; [rewrite H1; apply seq_NoDup|].
  split; [|split; [rewrite P1; exact H4|split; [rewrite P2; exact E|]]].
  - intros x Hx Hin. rewrite H1 in Hx. apply in_seq in Hx.
    rewrite Forall_forall in L1. specialize (L1 x Hin). lia.
  - intros x Hx. apply processQueue_keeps. rewrite H2, map_app.
    apply in_or_app. right. rewrite H3. exact Hx.
Qed.

Lemma addToQueue_tasks_witness :
  List.length (fst (addToQueue Fixtures.um0 [Fixtures.png 1; Fixtures.png 2] "p")) = 2%nat
  /\ NoDup (fst (addToQueue Fixtures.um0 [Fixtures.png 1; Fixtures.png 2] "p"))
  /\ (forall x, In x (fst (addToQueue Fixtures.um0 [Fixtures.png 1; Fixtures.png 2] "p")) ->
        ~ In x (g_enqueued Fixtures.um0))
  /\ g_enqueued (snd (addToQueue Fixtures.um0 [Fixtures.png 1; Fixtures.png 2] "p"))
     = g_enqueued Fixtures.um0 ++ fst (addToQueue Fixtures.um0 [Fixtures.png 1; Fixtures.png 2] "p")
  /\ emitted (snd (addToQueue Fixtures.um0 [Fixtures.png 1; Fixtures.png 2] "p"))
     = emitted Fixtures.um0
  /\ (forall x, In x (fst (addToQueue Fixtures.um0 [Fixtures.png 1; Fixtures.png 2] "p")) ->
        In x (map id (queue (snd (addToQueue Fixtures.um0 [Fixtures.png 1; Fixtures.png 2] "p"))))
        \/ In x (map id (inflight (snd (addToQueue Fixtures.um0
                                        [Fixtures.png 1; Fixtures.png 2] "p"))))).
Proof.
  apply addToQueue_tasks. unfold fifo. simpl. repeat constructor.
Defined.

(** ** C3 *)

(** C3 (amended).  [UploadManager] admits tasks exactly in the order
    [addToQueue] pushed them, skipping only those removed from the queue by
    [removeFromQueue] or [clearQueue]: the admitted ids followed by the
    queued ids are the pushed ids less the removed ones.  The hook's
    [retryUpload] does not re-enqueue: on a failed entry that still has
    its file and a non-empty property id, it starts the transfer at once
    in a new [Set] of its own (the next set reference), leaves the batch
    loops and their queues as they are, and the entry is [uploading] when
    the call returns. *)
Theorem admission_order_fifo (e : Env) (cfg : option UploadManagerConfig)
  (s0 : UM) (ops : list op) :
  construct e cfg = Ok s0 ->
  g_admitted (run s0 ops) ++ map id (queue (run s0 ops))
    = filter (notin (g_dropped (run s0 ops))) (g_enqueued (run s0 ops))
  /\ (forall (hs : Hook.HS) (x : nat) (u : Hook.UploadStatus) (f : File) (pid : string),
        find (fun u => Nat.eqb (Hook.u_id u) x) (Hook.uploads hs) = Some u ->
        Hook.status u = Hook.Error -> Hook.u_file u = Some f ->
        Hook.u_propertyId u = Some pid -> pid <> "" ->
        Hook.loops (Hook.retryUpload x hs) = Hook.loops hs
        /\ In (Hook.mkFlight f x pid (List.length (Hook.sets hs)) (Hook.nextHandle hs))
              (Hook.flights (Hook.retryUpload x hs))
        /\ (forall v, In v (Hook.uploads (Hook.retryUpload x hs)) -> Hook.u_id v = x ->
              Hook.status v = Hook.Uploading)).
Proof.
  intros Hc. split.
  - apply (run_fifo ops s0 (construct_fifo e cfg s0 Hc)).
  - intros hs x u f pid Hf Hs Hfi Hp Hne.
    unfold Hook.retryUpload. rewrite Hf, Hs, Hfi, Hp.
    rewrite (proj2 (String.eqb_neq pid "") Hne). cbn.
    split; [reflexivity|split].
    + apply in_or_app. right. left. reflexivity.
    + intros v Hv Hid. unfold Hook.map_id in Hv. apply in_map_iff in Hv as [w [Hw _]].
      subst v. destruct (Nat.eqb (Hook.u_id w) x) eqn:E; [reflexivity|].
      rewrite Hid, Nat.eqb_refl in E. discriminate.
Qed.

Lemma admission_order_fifo_witness :
  g_admitted (run Fixtures.um0 [AddToQueue [Fixtures.png 1; Fixtures.png 2; Fixtures.png 3;
                                            Fixtures.png 4; Fixtures.png 5] "p";
                                RemoveFromQueue 3; Settle 1 SendOk])
  ++ map id (queue (run Fixtures.um0 [AddToQueue [Fixtures.png 1; Fixtures.png 2;
                                                  Fixtures.png 3; Fixtures.png 4;
                                                  Fixtures.png 5] "p";
                                      RemoveFromQueue 3; Settle 1 SendOk]))
  = filter (notin (g_dropped (run Fixtures.um0
                 [AddToQueue [Fixtures.png 1; Fixtures.png 2; Fixtures.png 3;
                              Fixtures.png 4; Fixtures.png 5] "p";
                  RemoveFromQueue 3; Settle 1 SendOk])))
      (g_enqueued (run Fixtures.um0
                 [AddToQueue [Fixtures.png 1; Fixtures.png 2; Fixtures.png 3;
                              Fixtures.png 4; Fixtures.png 5] "p";
                  RemoveFromQueue 3; Settle 1 SendOk]))
  /\ In (Hook.mkFlight (Fixtures.png 1) 1%nat "p"
          (List.length (Hook.sets (Hook.hrun Hook.hinit
             [Hook.HUploadFiles [Fixtures.png 1; Fixtures.png 2] "p";
              Hook.HSettle 0%nat Fixtures.fetch_fail])))
          (Hook.nextHandle (Hook.hrun Hook.hinit
             [Hook.HUploadFiles [Fixtures.png 1; Fixtures.png 2] "p";
              Hook.HSettle 0 Fixtures.fetch_fail])))
        (Hook.flights (Hook.retryUpload 1%nat (Hook.hrun Hook.hinit
             [Hook.HUploadFiles [Fixtures.png 1; Fixtures.png 2] "p";
              Hook.HSettle 0 Fixtures.fetch_fail]))).
Proof.
  destruct (admission_order_fifo Fixtures.env_keys None Fixtures.um0
              [AddToQueue [Fixtures.png 1; Fixtures.png 2; Fixtures.png 3;
                           Fixtures.png 4; Fixtures.png 5] "p";
               RemoveFromQueue 3; Settle 1 SendOk] eq_refl) as [A B].
  split; [exact A|].
  destruct (B (Hook.hrun Hook.hinit [Hook.HUploadFiles [Fixtures.png 1; Fixtures.png 2] "p";
                                     Hook.HSettle 0 Fixtures.fetch_fail])
              1%nat (Hook.mkStatus 1%nat "photo.png" 10%Z Hook.Error None (Some "Failed to fetch")
                   (Some (Fixtures.png 1)) (Some "p"))
              (Fixtures.png 1) "p") as [_ [F _]];
    [vm_compute; reflexivity|reflexivity|reflexivity|reflexivity|discriminate|exact F].
Defined.

(** ** C4 *)

(** C4.  In every state reachable from a constructed manager (no
    configuration setting the limit to NaN), [activeUploads] holds exactly
    the ids of the pending [uploadFile] calls, once each: a slot is taken
    when an upload starts and given back when it settles, whether it
    succeeded or failed.  Once no upload is pending, the active count is 0
    and the queue is empty, so no settled task keeps later tasks from
    being admitted. *)
Theorem slots_released (e : Env) (cfg : option UploadManagerConfig)
  (s0 : UM) (ops : list op) :
  construct e cfg = Ok s0 ->
  config_no_nan cfg = true ->
  forallb op_no_nan ops = true ->
  activeUploads (run s0 ops) = map id (inflight (run s0 ops))
  /\ NoDup (activeUploads (run s0 ops))
  /\ (inflight (run s0 ops) = [] ->
      activeCount (run s0 ops) = 0%nat /\ queue (run s0 ops) = []).
Proof.
  intros Hc Hn Ho.
  destruct (construct_slots_drained e cfg s0 Hc Hn) as [S0 D0].
  destruct (run_slots_drained ops s0 S0 D0 Ho) as [[Ha [Hd _]] [q [_ [_ Hq]]]].
  split; [exact Ha|split].
  - rewrite Ha. apply NoDup_app_remove_l in Hd. exact Hd.
  - intros HI. split; [unfold activeCount; rewrite Ha, HI; reflexivity|exact (Hq HI)].
Qed.

Lemma slots_released_witness :
  activeUploads (run Fixtures.um0
    [AddToQueue [Fixtures.png 1; Fixtures.png 2; Fixtures.png 3; Fixtures.png 4] "p";
     Settle 0 (SendFail "x"); Settle 0 SendOk])
  = map id (inflight (run Fixtures.um0
    [AddToQueue [Fixtures.png 1; Fixtures.png 2; Fixtures.png 3; Fixtures.png 4] "p";
     Settle 0 (SendFail "x"); Settle 0 SendOk]))
  /\ NoDup (activeUploads (run Fixtures.um0
    [AddToQueue [Fixtures.png 1; Fixtures.png 2; Fixtures.png 3; Fixtures.png 4] "p";
     Settle 0 (SendFail "x"); Settle 0 SendOk]))
  /\ (inflight (run Fixtures.um0
       [AddToQueue [Fixtures.png 1; Fixtures.png 2; Fixtures.png 3; Fixtures.png 4] "p";
        Settle 0 (SendFail "x"); Settle 0 SendOk]) = [] ->
      activeCount (run Fixtures.um0
       [AddToQueue [Fixtures.png 1; Fixtures.png 2; Fixtures.png 3; Fixtures.png 4] "p";
        Settle 0 (SendFail "x"); Settle 0 SendOk]) = 0%nat
      /\ queue (run Fixtures.um0
       [AddToQueue [Fixtures.png 1; Fixtures.png 2; Fixtures.png 3; Fixtures.png 4] "p";
        Settle 0 (SendFail "x"); Settle 0 SendOk]) = []).
Proof.
  apply (slots_released Fixtures.env_keys None); reflexivity.
Defined.

End ClassProofs.

(** * Configuration of the class *)

Module ConfigProofs.

Import UploadManager Runs Fixtures.

(** C9 (amended).  Construction throws exactly when the access key id or
    the secret access key is unset or empty; the bucket name, the account
    id and the public domain are not looked at, and the credentials are
    not validated. *)
Theorem construct_throws_iff (e : Env) (cfg : option UploadManagerConfig) :
  (exists m, construct e cfg = Throw m)
  <-> truthy (e "CLOUDFLARE_R2_ACCESS_KEY_ID") = false
      \/ truthy (e "CLOUDFLARE_R2_SECRET_ACCESS_KEY") = false.
Proof.
  unfold construct. cbv zeta.
  destruct (truthy (e "CLOUDFLARE_R2_ACCESS_KEY_ID")),
           (truthy (e "CLOUDFLARE_R2_SECRET_ACCESS_KEY")); simpl;
    split; intros H;
    solve [ eexists; reflexivity | auto
          | destruct H as [m Hm]; discriminate
          | destruct H as [H|H]; discriminate ].
Qed.

Lemma construct_throws_iff_witness :
  (exists m, construct (fun _ => None) None = Throw m)
  <-> truthy ((fun _ : string => @None string) "CLOUDFLARE_R2_ACCESS_KEY_ID") = false
      \/ truthy ((fun _ : string => @None string) "CLOUDFLARE_R2_SECRET_ACCESS_KEY") = false.
Proof.
  apply (construct_throws_iff (fun _ => None) None).
Defined.

(** C9: counterexample.  With only the two keys set (no bucket name, no
    account id, no public domain), construction succeeds; the bucket name
    is empty and the endpoint names the host [undefined]. *)
Lemma construct_without_destination :
  env_keys "CLOUDFLARE_R2_BUCKET_NAME" = None
  /\ env_keys "CLOUDFLARE_R2_ACCOUNT_ID" = None
  /\ env_keys "CLOUDFLARE_R2_PUBLIC_DOMAIN" = None
  /\ construct env_keys None = Ok um0
  /\ bucketName um0 = ""
  /\ s3_endpoint (s3Client um0) = "https://undefined.r2.cloudflarestorage.com".
Proof.
  repeat split; reflexivity.
Qed.

(** C10: a NaN limit goes through the clamp unchanged, since
    [Math.min(10, NaN)] is NaN: the constructor and [updateConfig] then
    leave [maxConcurrent] outside [1, 10], and [processQueue] never admits
    anything, as [availableSlots] is NaN and [splice(0, NaN)] removes no
    task. *)
Theorem nan_limit_escapes_clamp :
  clampConcurrent JNaN = JNaN
  /\ in_1_10 (maxConcurrent (updateConfig cfg_nan um0)) = false
  /\ (exists s, construct env_keys (Some cfg_nan) = Ok s
        /\ in_1_10 (maxConcurrent s) = false
        /\ List.length (queue (run s [AddToQueue [png 1; png 2] "p"])) = 2%nat
        /\ activeCount (run s [AddToQueue [png 1; png 2] "p"]) = 0%nat
        /\ activeCount (run s [AddToQueue [png 1; png 2] "p"; AddToQueue [png 3] "p"])
           = 0%nat).
Proof.
  split; [reflexivity|]. split; [reflexivity|].
  eexists. split; [reflexivity|]. repeat split; vm_compute; reflexivity.
Qed.

End ConfigProofs.

(** * Admission without a type check; progress after a failure *)

Module EventProofs.

Import UploadManager Runs ImagesPost.

Lemma addToQueue_length (s : UM) (files : list File) (pid : string) :
  List.length (fst (addToQueue s files pid)) = List.length files.
Proof.
  unfold addToQueue.
  destruct (ClassProofs.push_spec files pid s) as [H _].
  destruct (pushFiles files pid s) as [ids s1]. simpl in *.
  rewrite H. apply length_seq.
Qed.

Lemma ids_map_id (x : nat) (f : Hook.UploadStatus -> Hook.UploadStatus)
  (l : list Hook.UploadStatus) :
  (forall u, Hook.u_id (f u) = Hook.u_id u) ->
  map Hook.u_id (Hook.map_id x f l) = map Hook.u_id l.
Proof.
  intros Hf. unfold Hook.map_id. rewrite map_map. apply map_ext.
  intros u. destruct (Nat.eqb _ _); [apply Hf|reflexivity].
Qed.

Lemma ids_admitLoop (q : list (File * nat)) (r : nat) (pid : string) (s : Hook.HS) :
  map Hook.u_id (Hook.uploads (snd (Hook.admitLoop q r pid s))) = map Hook.u_id (Hook.uploads s).
Proof.
  revert s. induction q as [|[f uid] q IH]; intros s; [reflexivity|].
  cbn [Hook.admitLoop]. destruct (Nat.ltb _ _); [|reflexivity].
  rewrite IH. cbn. apply ids_map_id. reflexivity.
Qed.

Lemma ids_loopIter (k : nat) (s : Hook.HS) :
  map Hook.u_id (Hook.uploads (Hook.loopIter k s)) = map Hook.u_id (Hook.uploads s).
Proof.
  unfold Hook.loopIter. destruct (nth_error (Hook.loops s) k) as [l|]; [|reflexivity].
  destruct (_ && _); [reflexivity|].
  pose proof (ids_admitLoop (Hook.fileQueue l) (Hook.loopSet l) (Hook.loopPid l) s) as H.
  destruct (Hook.admitLoop (Hook.fileQueue l) (Hook.loopSet l) (Hook.loopPid l) s) as [q' s1].
  exact H.
Qed.

Lemma processImages_non_images (up : File -> option string) (images : list File) :
  forallb (fun f => negb (String.prefix "image/" (f_type f))) images = true ->
  processImages up images = [].
Proof.
  induction images as [|i r IH]; intros H; [reflexivity|].
  simpl in H. apply andb_true_iff in H as [H1 H2]. simpl. rewrite H1. apply IH, H2.
Qed.

(** C2 (amended).  Submission does not look at the file type: [addToQueue]
    returns an id for every file, and the hook's [uploadFiles] returns the
    [uuid] of every file and makes an entry for each.  Only the POST
    handler tests the type: it drops every file whose type does not start
    with [image/], wherever it stands in the request, without any error.
    With the property found, R2 configured, a non-empty request and no
    rejected call, the answer is a success with the urls of the image
    files that were stored; a request holding only non-image files gets a
    success with no url (its [findByIdAndUpdate] is never called). *)
Theorem no_type_check_at_submission :
  (forall (s : UM) (files : list File) (pid : string),
      List.length (fst (addToQueue s files pid)) = List.length files)
  /\ (forall (hs : Hook.HS) (files : list File) (pid : string),
        fst (Hook.uploadFiles files pid hs) = map f_uuid files
        /\ map Hook.u_id (Hook.uploads (snd (Hook.uploadFiles files pid hs)))
           = map f_uuid files)
  /\ (forall (up : File -> option string) (images : list File),
        images <> [] ->
        post up NoFault true true images = Success (processImages up images)
        /\ processImages up images
           = processImages up (filter (fun f => String.prefix "image/" (f_type f)) images))
  /\ (forall (up : File -> option string) (ft : Fault) (images : list File),
        images <> [] -> ft <> DbFails -> ft <> FormFails ->
        forallb (fun f => negb (String.prefix "image/" (f_type f))) images = true ->
        post up ft true true images = Success []).
Proof.
  split; [|split; [|split]].
  - apply addToQueue_length.
  - intros hs files pid. unfold Hook.uploadFiles. cbn [fst snd]. split.
    + rewrite map_map. reflexivity.
    + rewrite ids_loopIter. cbn. rewrite map_map. reflexivity.
  - intros up [|i rest] Hne; [contradiction|]. split.
    + unfold post. destruct (processImages up (i :: rest)); reflexivity.
    + clear Hne. induction (i :: rest) as [|j r IH]; [reflexivity|].
      simpl. destruct (String.prefix "image/" (f_type j)) eqn:E; simpl; [|exact IH].
      rewrite E. simpl. destruct (up j); rewrite IH; reflexivity.
  - intros up ft [|i rest] Hne H1 H2 Hi; [contradiction|].
    pose proof (processImages_non_images up (i :: rest) Hi) as Hn.
    destruct ft; try contradiction; unfold post; rewrite Hn; reflexivity.
Qed.

Lemma no_type_check_at_submission_witness :
  fst (Hook.uploadFiles [Fixtures.txt] "p" Hook.hinit) = map f_uuid [Fixtures.txt]
  /\ post (fun _ => Some "u") NoFault true true [Fixtures.txt; Fixtures.png 1]
     = Success (processImages (fun _ => Some "u") [Fixtures.txt; Fixtures.png 1])
  /\ post (fun _ => Some "u") UpdateFails true true [Fixtures.txt] = Success [].
Proof.
  destruct no_type_check_at_submission as [_ [B [C D]]].
  split; [exact (proj1 (B Hook.hinit [Fixtures.txt] "p"))|split].
  - exact (proj1 (C (fun _ => Some "u") [Fixtures.txt; Fixtures.png 1]
                    ltac:(discriminate))).
  - apply D; [discriminate|discriminate|discriminate|reflexivity].
Defined.

(** C2: counterexample.  A [text/plain] file submitted to [addToQueue]
    gets an id and its task is started; the hook's [uploadFiles] returns
    its [uuid]; the POST handler answers a request holding only that file
    with a success and no url. *)
Lemma text_file_accepted :
  f_type Fixtures.txt = "text/plain"
  /\ fst (addToQueue Fixtures.um0 [Fixtures.txt] "p") = [0%nat]
  /\ map id (inflight (snd (addToQueue Fixtures.um0 [Fixtures.txt] "p"))) = [0%nat]
  /\ fst (Hook.uploadFiles [Fixtures.txt] "p" Hook.hinit) = [0%nat]
  /\ post (fun _ => Some "u") NoFault true true [Fixtures.txt] = Success [].
Proof.
  repeat split; reflexivity.
Qed.

(** C7: the interval of [uploadFile] is cleared only after [send]
    resolves; when the upload fails, [onError] runs and the interval keeps
    firing, so [onProgress] is called after [onError].  The value passed
    is [Math.random() * 10] added up: here 2.5, not an integer. *)
Theorem progress_after_error :
  exists p,
    emitted (run Fixtures.um0 [AddToQueue [Fixtures.png 1] "p";
                               Settle 0 (SendFail "network"); Tick 0 (1#4)])
    = [OnError 0 "network"; OnProgress 0 p]
    /\ p == 5#2.
Proof.
  exists (10#4). split; [vm_compute; reflexivity|reflexivity].
Qed.

End EventProofs.

(** * The hook of part_008 *)

Module HookProofs.

Import Hook Runs.

Lemma map_id_source (x : nat) (f : UploadStatus -> UploadStatus) (l : list UploadStatus) :
  (forall u, u_file (f u) = u_file u /\ u_propertyId (f u) = u_propertyId u) ->
  Forall has_source l -> Forall has_source (map_id x f l).
Proof.
  intros Hf H. unfold map_id. apply Forall_map. eapply Forall_impl; [|exact H].
  intros u Hu. destruct (Nat.eqb (u_id u) x); [|exact Hu].
  unfold has_source in *. destruct (Hf u) as [-> ->]. exact Hu.
Qed.

Ltac keeps_source := intros; split; reflexivity.

Lemma admitLoop_source (q : list (File * nat)) (r : nat) (pid : string) (s : HS) :
  Forall has_source (uploads s) -> Forall has_source (uploads (snd (admitLoop q r pid s))).
Proof.
  revert s. induction q as [|[f uid] q IH]; intros s H; simpl; [exact H|].
  destruct (Nat.ltb _ _); simpl; [|exact H].
  apply IH. simpl. apply map_id_source; [keeps_source|exact H].
Qed.

Lemma loopIter_source (k : nat) (s : HS) :
  Forall has_source (uploads s) -> Forall has_source (uploads (loopIter k s)).
Proof.
  intros H. unfold loopIter. destruct (nth_error (loops s) k) as [l|]; [|exact H].
  destruct (_ && _); [exact H|].
  pose proof (admitLoop_source (fileQueue l) (loopSet l) (loopPid l) s H) as H1.
  destruct (admitLoop (fileQueue l) (loopSet l) (loopPid l) s) as [q' s1]. exact H1.
Qed.

Lemma hrun_op_source (s : HS) (o : hop) :
  Forall has_source (uploads s) -> Forall has_source (uploads (hrun_op s o)).
Proof.
  intros H. destruct o as [fs pid|k|k|k out|x|x|]; simpl.
  - unfold uploadFiles. simpl. apply loopIter_source. simpl.
    apply Forall_map. apply Forall_forall. intros f _. split; discriminate.
  - apply loopIter_source, H.
  - unfold intervalTick. destruct (nth_error (intervals s) k); [|exact H].
    simpl. apply Forall_map. eapply Forall_impl; [|exact H].
    intros u Hu. destruct (_ && _); exact Hu.
  - unfold settleSingle. destruct (nth_error (flights s) k) as [fl|]; [|exact H].
    destruct out as [resp|m]; simpl.
    + destruct (_ && _); simpl; apply map_id_source; try keeps_source; exact H.
    + apply map_id_source; [keeps_source|exact H].
  - unfold retryUpload. destruct (find _ _) as [u|]; [|exact H].
    destruct (status u), (u_file u), (u_propertyId u) as [pid|]; try exact H.
    destruct (String.eqb pid ""); [exact H|].
    simpl. apply map_id_source; [keeps_source|].
    apply map_id_source; [keeps_source|exact H].
  - apply Forall_forall. intros u Hu. apply filter_In in Hu as [Hu _].
    rewrite Forall_forall in H. exact (H u Hu).
  - constructor.
Qed.

Lemma hrun_source (ops : list hop) (s : HS) :
  Forall has_source (uploads s) -> Forall has_source (uploads (hrun s ops)).
Proof.
  revert s. induction ops as [|o ops IH]; intros s H; simpl; [exact H|].
  apply IH, hrun_op_source, H.
Qed.

(** C6 (amended).  In every state the hook reaches, [retryUpload(x)]
    changes nothing unless the first entry with id [x] is in [error] with
    a non-empty property id (it reports nothing to the caller either way:
    the call returns [undefined]).  On such an entry it does not put the
    task back in a queue: the updater sets [queued], progress 0 and no
    error, and [uploadSingleFile] is called at once, so when the call
    returns the entry is [uploading] with progress 10 and no error, the
    batch loops are as they were, and the transfer runs in a new [Set]
    holding only [x]. *)
Theorem retry_failed_only (ops : list hop) (x : nat) :
  ((forall u, find (fun u => Nat.eqb (u_id u) x) (uploads (hrun hinit ops)) = Some u ->
              status u = Error -> u_propertyId u = Some "") ->
   retryUpload x (hrun hinit ops) = hrun hinit ops)
  /\ (forall u, find (fun u => Nat.eqb (u_id u) x) (uploads (hrun hinit ops)) = Some u ->
        status u = Error -> u_propertyId u <> Some "" ->
        uploads (retryUpload x (hrun hinit ops))
          = map_id x (fun v => to_uploading (reset v)) (uploads (hrun hinit ops))
        /\ Forall (fun v => u_id v = x ->
                            status v = Uploading /\ progress v = 10%Z /\ error v = None)
             (uploads (retryUpload x (hrun hinit ops)))
        /\ loops (retryUpload x (hrun hinit ops)) = loops (hrun hinit ops)
        /\ set_get (List.length (sets (hrun hinit ops))) (retryUpload x (hrun hinit ops)) = [x]
        /\ exists f pid,
             In (mkFlight f x pid (List.length (sets (hrun hinit ops)))
                   (nextHandle (hrun hinit ops)))
                (flights (retryUpload x (hrun hinit ops)))).
Proof.
  set (s := hrun hinit ops).
  assert (Hsrc : Forall has_source (uploads s)) by (apply hrun_source; constructor).
  split.
  - intros H. unfold retryUpload.
    destruct (find _ (uploads s)) as [u|] eqn:E; [|reflexivity].
    destruct (status u) eqn:Hs; try reflexivity.
    rewrite (H u eq_refl Hs). destruct (u_file u); reflexivity.
  - intros u E Hs Hp.
    pose proof (find_some _ _ E) as [Hin _].
    rewrite Forall_forall in Hsrc. destruct (Hsrc u Hin) as [F P].
    destruct (u_file u) as [f|] eqn:Ef; [|contradiction].
    destruct (u_propertyId u) as [pid|] eqn:Ep; [|contradiction].
    assert (Hne : pid <> "") by (intros ->; exact (Hp eq_refl)).
    assert (R : retryUpload x s
                = startSingle f x pid (List.length (sets s))
                    (set_alloc [x] (set_uploads (map_id x reset (uploads s)) s))).
    { unfold retryUpload. rewrite E, Hs, Ef, Ep, (proj2 (String.eqb_neq pid "") Hne).
      reflexivity. }
    assert (U : uploads (retryUpload x s)
                = map_id x (fun v => to_uploading (reset v)) (uploads s)).
    { rewrite R. cbn [startSingle set_alloc set_uploads uploads]. unfold map_id.
      rewrite map_map. apply map_ext. intros v.
      destruct (Nat.eqb (u_id v) x) eqn:Ev; simpl; rewrite Ev; reflexivity. }
    split; [exact U|split; [|split; [|split]]].
    + rewrite U. apply Forall_forall. intros v Hv Hid. unfold map_id in Hv.
      apply in_map_iff in Hv as [w [Hw _]]. subst v.
      destruct (Nat.eqb (u_id w) x) eqn:Ew; [repeat split|].
      rewrite Hid, Nat.eqb_refl in Ew. discriminate.
    + rewrite R. reflexivity.
    + rewrite R. unfold set_get. cbn. rewrite app_nth2 by lia.
      rewrite Nat.sub_diag. reflexivity.
    + exists f, pid. rewrite R. cbn. apply in_or_app. right. left. reflexivity.
Qed.

Lemma retry_failed_only_witness :
  retryUpload 2 (hrun hinit [HUploadFiles [Fixtures.png 1; Fixtures.png 2] "p";
                             HSettle 0 Fixtures.fetch_fail])
  = hrun hinit [HUploadFiles [Fixtures.png 1; Fixtures.png 2] "p"; HSettle 0 Fixtures.fetch_fail]
  /\ Forall (fun v => u_id v = 1%nat ->
                      status v = Uploading /\ progress v = 10%Z /\ error v = None)
       (uploads (retryUpload 1 (hrun hinit [HUploadFiles [Fixtures.png 1; Fixtures.png 2] "p";
                                            HSettle 0 Fixtures.fetch_fail]))).
Proof.
  split.
  - apply (proj1 (retry_failed_only
                    [HUploadFiles [Fixtures.png 1; Fixtures.png 2] "p";
                     HSettle 0 Fixtures.fetch_fail] 2)).
    intros u Hu Hs. vm_compute in Hu. injection Hu as <-. discriminate Hs.
  - destruct (proj2 (retry_failed_only
                       [HUploadFiles [Fixtures.png 1; Fixtures.png 2] "p";
                        HSettle 0 Fixtures.fetch_fail] 1)
                (mkStatus 1%nat "photo.png" 10%Z Error None (Some "Failed to fetch")
                   (Some (Fixtures.png 1)) (Some "p"))) as [_ [F _]];
      [vm_compute; reflexivity|reflexivity|discriminate|exact F].
Defined.

(** C6: counterexample.  An upload started with an empty property id
    fails; [retryUpload] on it returns without resetting it, and it stays
    in [error].  With property id ["p"], the retried entry is [uploading]
    with progress 10 when the call returns, not [queued] with progress 0. *)
Lemma retry_failed_not_requeued :
  option_map status (find (fun u => Nat.eqb (u_id u) 1)
    (uploads (hrun hinit [HUploadFiles [Fixtures.png 1] ""; HSettle 0 Fixtures.fetch_fail])))
    = Some Error
  /\ retryUpload 1 (hrun hinit [HUploadFiles [Fixtures.png 1] ""; HSettle 0 Fixtures.fetch_fail])
     = hrun hinit [HUploadFiles [Fixtures.png 1] ""; HSettle 0 Fixtures.fetch_fail]
  /\ option_map (fun u => (status u, progress u)) (find (fun u => Nat.eqb (u_id u) 1)
       (uploads (retryUpload 1 (hrun hinit [HUploadFiles [Fixtures.png 1] "p";
                                            HSettle 0 Fixtures.fetch_fail]))))
     = Some (Uploading, 10%Z).
Proof.
  split; [|split]; vm_compute; reflexivity.
Qed.

(** C1: counterexample.  The retry of a failed upload is given a new
    [Set] of its own and is not gated: after the retry and one more turn
    of the loop, four entries are [uploading] while the limit is 3. *)
Lemma hook_retry_exceeds_limit :
  (maxConcurrentUploads
   < count_status Uploading (uploads (hrun hinit (Fixtures.hops_retry ++ [HPoll 0]))))%nat.
Proof.
  vm_compute. repeat constructor.
Qed.

(** C3: counterexample.  The retried upload (id 1) is [uploading] right
    after [retryUpload], while the upload with id 4, which was waiting
    before the retry, is still [queued] in the loop's queue. *)
Lemma hook_retry_jumps_queue :
  option_map status (find (fun u => Nat.eqb (u_id u) 1) (uploads (hrun hinit Fixtures.hops_retry)))
    = Some Uploading
  /\ option_map status (find (fun u => Nat.eqb (u_id u) 4) (uploads (hrun hinit Fixtures.hops_retry)))
    = Some Queued
  /\ map fileQueue (loops (hrun hinit Fixtures.hops_retry)) = [[(Fixtures.png 4, 4%nat)]].
Proof.
  repeat split; vm_compute; reflexivity.
Qed.

End HookProofs.

(** * The hook of part_007 *)

Module LegacyProofs.

Import UploadManager LegacyHook.

Lemma callbacks_on_empty (cs : list Callback) (st : St7) :
  uploads7 st = [] -> uploads7 (fold_left onCallback cs st) = [].
Proof.
  revert st. induction cs as [|c cs IH]; intros st H; simpl; [exact H|].
  apply IH. destruct c; simpl; rewrite H; reflexivity.
Qed.

Lemma deliver_on_empty (ops : list op) (st : St7) :
  uploads7 st = [] -> uploads7 (fold_left deliver ops st) = [].
Proof.
  revert st. induction ops as [|o ops IH]; intros st H; simpl; [exact H|].
  apply IH. unfold deliver. apply callbacks_on_empty. exact H.
Qed.

(** C8 (amended).  [clearUploads] empties the tracked list and resets
    [isUploading]; it also empties the manager's queue, so tasks not yet
    started are dropped and never transferred.  Uploads in flight are
    kept by the manager and go on; whatever they report later leaves the
    list empty. *)
Theorem clear_untracks (st : St7) (ops : list op) :
  uploads7 (clearUploads st) = []
  /\ isUploading7 (clearUploads st) = false
  /\ queue (mgr (clearUploads st)) = []
  /\ g_dropped (mgr (clearUploads st)) = g_dropped (mgr st) ++ map id (queue (mgr st))
  /\ activeUploads (mgr (clearUploads st)) = activeUploads (mgr st)
  /\ inflight (mgr (clearUploads st)) = inflight (mgr st)
  /\ uploads7 (fold_left deliver ops (clearUploads st)) = [].
Proof.
  repeat split; try reflexivity. apply deliver_on_empty. reflexivity.
Qed.

(** C8: counterexample.  With four files submitted, the fourth waits in
    the manager's queue; [clearUploads] changes that queue too, not only
    the tracked list. *)
Lemma clear_drops_queued_task :
  map id (queue (mgr (mkSt7 [] true (snd (addToQueue Fixtures.um0
        [Fixtures.png 1; Fixtures.png 2; Fixtures.png 3; Fixtures.png 4] "p"))))) = [3%nat]
  /\ queue (mgr (clearUploads (mkSt7 [] true (snd (addToQueue Fixtures.um0
        [Fixtures.png 1; Fixtures.png 2; Fixtures.png 3; Fixtures.png 4] "p"))))) = [].
Proof.
  split; reflexivity.
Qed.

End LegacyProofs.

(** * Further properties of [UploadManager] *)

Module ManagerExtras.

Import UploadManager Runs Observe.

(** The clamp of the limit: a number below 1 becomes 1, one above 10
    becomes 10, one in between is kept, and the infinities go to the
    nearest bound. *)
Theorem clamp_values (q : Q) :
  (q <= 1 -> clampConcurrent (JNum q) = JNum 1)
  /\ (10 <= q -> clampConcurrent (JNum q) = JNum 10)
  /\ (1 < q -> q < 10 -> clampConcurrent (JNum q) = JNum q)
  /\ clampConcurrent JPosInf = JNum 10
  /\ clampConcurrent JNegInf = JNum 1.
Proof.
  unfold clampConcurrent. simpl.
  split; [|split; [|split; [|split; reflexivity]]].
  - intros H. destruct (Qle_bool 10 q) eqn:E1.
    + apply Qle_bool_iff in E1. exfalso. lra.
    + simpl. replace (Qle_bool q 1) with true by (symmetry; apply Qle_bool_iff; exact H).
      reflexivity.
  - intros H. replace (Qle_bool 10 q) with true by (symmetry; apply Qle_bool_iff; exact H).
    reflexivity.
  - intros H1 H2. destruct (Qle_bool 10 q) eqn:E1.
    + apply Qle_bool_iff in E1. exfalso. lra.
    + destruct (Qle_bool q 1) eqn:E2; [|reflexivity].
      apply Qle_bool_iff in E2. exfalso. lra.
Qed.

Lemma clamp_values_witness :
  clampConcurrent (JNum 0) = JNum 1
  /\ clampConcurrent (JNum 25) = JNum 10
  /\ clampConcurrent (JNum (5#2)) = JNum (5#2).
Proof.
  split; [|split].
  - apply (proj1 (clamp_values 0)). apply Qle_bool_iff. reflexivity.
  - apply (proj1 (proj2 (clamp_values 25))). apply Qle_bool_iff. reflexivity.
  - apply (proj1 (proj2 (proj2 (clamp_values (5#2))))); vm_compute; reflexivity.
Defined.

Lemma admits_nothing_op (s : UM) (o : op) :
  admits_nothing o = true ->
  g_admitted (run_op s o) = g_admitted s /\ inflight (run_op s o) = inflight s
  /\ activeUploads (run_op s o) = activeUploads s.
Proof.
  intros H. destruct o as [fs pid|k out|k r|c| |x]; simpl in *; try discriminate.
  - destruct (ClassProofs.tick_logs k r s) as [_ [_ [A _]]].
    destruct (ClassProofs.tick_frame k r s) as [B [_ [C _]]]. auto.
  - repeat split; reflexivity.
  - repeat split; reflexivity.
  - unfold removeFromQueue. destruct (findIndex x (queue s)); repeat split; reflexivity.
Qed.

(** Only [addToQueue] and the settling of an upload start uploads: a run
    of the other operations ([updateConfig], [clearQueue],
    [removeFromQueue], progress ticks) starts none, even when
    [updateConfig] raises the limit above the number of uploads in
    flight, since [updateConfig] does not call [processQueue]. *)
Theorem only_add_and_settle_admit (s : UM) (ops : list op) :
  forallb admits_nothing ops = true ->
  g_admitted (run s ops) = g_admitted s
  /\ inflight (run s ops) = inflight s
  /\ activeUploads (run s ops) = activeUploads s.
Proof.
  revert s. induction ops as [|o ops IH]; intros s H; simpl in *; [auto|].
  apply andb_true_iff in H as [H1 H2].
  destruct (admits_nothing_op s o H1) as [A [B C]].
  destruct (IH (run_op s o) H2) as [A' [B' C']].
  rewrite A', B', C'. auto.
Qed.

Lemma only_add_and_settle_admit_witness :
  g_admitted (run (snd (addToQueue Fixtures.um0
      [Fixtures.png 1; Fixtures.png 2; Fixtures.png 3; Fixtures.png 4] "p"))
      [UpdateConfig (mkConfig (Some (JNum 10)) None)])
  = g_admitted (snd (addToQueue Fixtures.um0
      [Fixtures.png 1; Fixtures.png 2; Fixtures.png 3; Fixtures.png 4] "p"))
  /\ inflight (run (snd (addToQueue Fixtures.um0
      [Fixtures.png 1; Fixtures.png 2; Fixtures.png 3; Fixtures.png 4] "p"))
      [UpdateConfig (mkConfig (Some (JNum 10)) None)])
  = inflight (snd (addToQueue Fixtures.um0
      [Fixtures.png 1; Fixtures.png 2; Fixtures.png 3; Fixtures.png 4] "p"))
  /\ activeUploads (run (snd (addToQueue Fixtures.um0
      [Fixtures.png 1; Fixtures.png 2; Fixtures.png 3; Fixtures.png 4] "p"))
      [UpdateConfig (mkConfig (Some (JNum 10)) None)])
  = activeUploads (snd (addToQueue Fixtures.um0
      [Fixtures.png 1; Fixtures.png 2; Fixtures.png 3; Fixtures.png 4] "p")).
Proof.
  apply only_add_and_settle_admit. reflexivity.
Defined.

Lemma processQueue_empty (s : UM) : queue s = [] -> processQueue s = s.
Proof.
  intros H. unfold processQueue. rewrite H. simpl. rewrite orb_true_r. reflexivity.
Qed.

Lemma remove_nth_length {A} (l : list A) (k : nat) :
  (List.length (remove_nth k l) <= List.length l)%nat.
Proof.
  revert k. induction l as [|a l IH]; intros [|k]; simpl; try lia.
  specialize (IH k). lia.
Qed.

Lemma empty_queue_op (s : UM) (o : op) :
  not_add o = true -> queue s = [] ->
  queue (run_op s o) = [] /\ g_admitted (run_op s o) = g_admitted s
  /\ (List.length (inflight (run_op s o)) <= List.length (inflight s))%nat.
Proof.
  intros H Hq. destruct o as [fs pid|k out|k r|c| |x]; simpl in *; try discriminate.
  - unfold settle. destruct (nth_error (inflight s) k) as [t|]; [|auto].
    rewrite processQueue_empty by (destruct out; exact Hq).
    destruct out; simpl; (split; [exact Hq|split; [reflexivity|apply remove_nth_length]]).
  - destruct (ClassProofs.tick_logs k r s) as [A [_ [B _]]].
    destruct (ClassProofs.tick_frame k r s) as [_ [_ [C _]]].
    rewrite A, B, C. auto.
  - auto.
  - auto.
  - unfold removeFromQueue. rewrite Hq. simpl. auto.
Qed.

(** After [clearQueue], and until the next [addToQueue], no upload is
    started: the queue stays empty, no task is admitted, and the uploads
    in flight can only finish. *)
Theorem clearQueue_quiesces (s : UM) (ops : list op) :
  forallb not_add ops = true ->
  queue (run (clearQueue s) ops) = []
  /\ g_admitted (run (clearQueue s) ops) = g_admitted s
  /\ (List.length (inflight (run (clearQueue s) ops)) <= List.length (inflight s))%nat.
Proof.
  assert (G : forall t, queue t = [] -> forallb not_add ops = true ->
            queue (run t ops) = [] /\ g_admitted (run t ops) = g_admitted t
            /\ (List.length (inflight (run t ops)) <= List.length (inflight t))%nat).
  { induction ops as [|o ops IH]; intros t Ht H; simpl in *; [auto|].
    apply andb_true_iff in H as [H1 H2].
    destruct (empty_queue_op t o H1 Ht) as [A [B C]].
    destruct (IH (run_op t o) A H2) as [A' [B' C']].
    rewrite B' , B. split; [exact A'|split; [reflexivity|lia]]. }
  intros H. destruct (G (clearQueue s) eq_refl H) as [A [B C]].
  split; [exact A|split; [exact B|exact C]].
Qed.

Lemma clearQueue_quiesces_witness :
  queue (run (clearQueue (snd (addToQueue Fixtures.um0
      [Fixtures.png 1; Fixtures.png 2; Fixtures.png 3; Fixtures.png 4; Fixtures.png 5] "p")))
      [Settle 0 SendOk; Settle 0 (SendFail "x")]) = []
  /\ g_admitted (run (clearQueue (snd (addToQueue Fixtures.um0
      [Fixtures.png 1; Fixtures.png 2; Fixtures.png 3; Fixtures.png 4; Fixtures.png 5] "p")))
      [Settle 0 SendOk; Settle 0 (SendFail "x")])
     = g_admitted (snd (addToQueue Fixtures.um0
      [Fixtures.png 1; Fixtures.png 2; Fixtures.png 3; Fixtures.png 4; Fixtures.png 5] "p"))
  /\ (List.length (inflight (run (clearQueue (snd (addToQueue Fixtures.um0
      [Fixtures.png 1; Fixtures.png 2; Fixtures.png 3; Fixtures.png 4; Fixtures.png 5] "p")))
      [Settle 0 SendOk; Settle 0 (SendFail "x")]))
     <= List.length (inflight (snd (addToQueue Fixtures.um0
      [Fixtures.png 1; Fixtures.png 2; Fixtures.png 3; Fixtures.png 4; Fixtures.png 5] "p"))))%nat.
Proof.
  apply clearQueue_quiesces. reflexivity.
Defined.

Lemma construct_slots (e : Env) (cfg : option UploadManagerConfig) (s : UM) :
  construct e cfg = Ok s -> slots s.
Proof.
  intros H. destruct (ClassProofs.construct_fresh e cfg s H) as [H1 [H2 [H3 _]]].
  unfold slots. rewrite H1, H2, H3. repeat constructor.
Qed.

Lemma run_slots (ops : list op) (s : UM) : slots s -> slots (run s ops).
Proof.
  revert s. induction ops as [|o ops IH]; intros s H; simpl; [exact H|].
  apply IH, ClassProofs.run_op_slots, H.
Qed.

Lemma findIndex_none (x : nat) (q : list UploadTask) :
  findIndex x q = None -> ~ In x (map id q).
Proof.
  induction q as [|t q IH]; simpl; [auto|].
  destruct (Nat.eqb (id t) x) eqn:E; [discriminate|].
  destruct (findIndex x q); [discriminate|]. intros _ [H|H].
  - subst. rewrite Nat.eqb_refl in E. discriminate.
  - exact (IH eq_refl H).
Qed.

Lemma filter_neq_notin (x : nat) (l : list nat) :
  filter (notin [x]) l = filter (fun y => negb (Nat.eqb y x)) l.
Proof.
  apply filter_ext. intros y. unfold notin. simpl. rewrite orb_false_r. reflexivity.
Qed.

(** [removeFromQueue(x)] in any state the manager reaches: it answers
    [true] exactly when [x] is queued, and then takes just that task out
    of the queue; a task that has already started cannot be removed: the
    call answers [false] and changes nothing, and the running uploads
    are never touched. *)
Theorem removeFromQueue_spec (e : Env) (cfg : option UploadManagerConfig)
  (s0 : UM) (ops : list op) (x : nat) :
  construct e cfg = Ok s0 ->
  (fst (removeFromQueue x (run s0 ops)) = true <-> In x (map id (queue (run s0 ops))))
  /\ (In x (map id (inflight (run s0 ops))) -> removeFromQueue x (run s0 ops) = (false, run s0 ops))
  /\ map id (queue (snd (removeFromQueue x (run s0 ops))))
     = filter (fun y => negb (Nat.eqb y x)) (map id (queue (run s0 ops)))
  /\ inflight (snd (removeFromQueue x (run s0 ops))) = inflight (run s0 ops)
  /\ activeUploads (snd (removeFromQueue x (run s0 ops))) = activeUploads (run s0 ops).
Proof.
  intros Hc. pose proof (run_slots ops s0 (construct_slots e cfg s0 Hc)) as Sl.
  set (s := run s0 ops) in *. destruct Sl as [_ [Hn _]].
  pose proof (NoDup_app_remove_r _ _ Hn) as Hq.
  unfold removeFromQueue. destruct (findIndex x (queue s)) as [i|] eqn:Ef; simpl.
  - destruct (ClassProofs.findIndex_remove x (queue s) i Hq Ef) as [R Hin].
    split; [split; auto|]. split.
    + intros Hi. exfalso. exact (ClassProofs.nodup_app_disj _ _ x Hn Hin Hi).
    + rewrite R, filter_neq_notin. auto.
  - pose proof (findIndex_none x (queue s) Ef) as Hnot.
    split; [split; [discriminate|intros H; contradiction]|].
    split; [reflexivity|]. split; [|auto].
    symmetry. rewrite <- filter_neq_notin. apply ClassProofs.filter_notin_id.
    intros y Hy [<-|[]]. exact (Hnot Hy).
Qed.

Lemma removeFromQueue_spec_witness :
  (fst (removeFromQueue 3 (run Fixtures.um0
     [AddToQueue [Fixtures.png 1; Fixtures.png 2; Fixtures.png 3; Fixtures.png 4] "p"])) = true
   <-> In 3%nat (map id (queue (run Fixtures.um0
     [AddToQueue [Fixtures.png 1; Fixtures.png 2; Fixtures.png 3; Fixtures.png 4] "p"]))))
  /\ (In 0%nat (map id (inflight (run Fixtures.um0
     [AddToQueue [Fixtures.png 1; Fixtures.png 2; Fixtures.png 3; Fixtures.png 4] "p"]))) ->
      removeFromQueue 0 (run Fixtures.um0
        [AddToQueue [Fixtures.png 1; Fixtures.png 2; Fixtures.png 3; Fixtures.png 4] "p"])
      = (false, run Fixtures.um0
        [AddToQueue [Fixtures.png 1; Fixtures.png 2; Fixtures.png 3; Fixtures.png 4] "p"])).
Proof.
  split.
  - destruct (removeFromQueue_spec Fixtures.env_keys None Fixtures.um0
      [AddToQueue [Fixtures.png 1; Fixtures.png 2; Fixtures.png 3; Fixtures.png 4] "p"] 3)
      as [A _]; [reflexivity|]. exact A.
  - destruct (removeFromQueue_spec Fixtures.env_keys None Fixtures.um0
      [AddToQueue [Fixtures.png 1; Fixtures.png 2; Fixtures.png 3; Fixtures.png 4] "p"] 0)
      as [_ [B _]]; [reflexivity|]. exact B.
Defined.

Lemma drop_slashes_split (l : list ascii) :
  exists n, l = repeat "/"%char n ++ drop_slashes l.
Proof.
  induction l as [|c l IH]; simpl; [exists 0%nat; reflexivity|].
  destruct (Ascii.eqb c "/") eqn:E.
  - apply Ascii.eqb_eq in E. subst. destruct IH as [n Hn]. exists (S n). simpl.
    rewrite <- Hn. reflexivity.
  - exists 0%nat. reflexivity.
Qed.

Lemma drop_slashes_head (l r : list ascii) : drop_slashes l <> "/"%char :: r.
Proof.
  induction l as [|c l IH]; simpl; [discriminate|].
  destruct (Ascii.eqb c "/") eqn:E; [exact IH|].
  intros H. injection H as -> _. discriminate.
Qed.

Lemma rev_repeat_ascii (c : ascii) (n : nat) : rev (repeat c n) = repeat c n.
Proof.
  assert (S1 : forall k, repeat c k ++ [c] = c :: repeat c k).
  { induction k as [|k IH]; simpl; [reflexivity|]. rewrite IH. reflexivity. }
  induction n as [|n IH]; simpl; [reflexivity|]. rewrite IH. apply S1.
Qed.

Lemma fold_start_base (l : list UploadTask) (t : UM) :
  baseLocation (fold_left startUpload l t) = baseLocation t.
Proof.
  revert t. induction l as [|a l IH]; intros t; simpl; [reflexivity|]. rewrite IH. reflexivity.
Qed.

Lemma processQueue_base (t : UM) : baseLocation (processQueue t) = baseLocation t.
Proof.
  unfold processQueue. destruct (_ || _); [reflexivity|]. cbv zeta.
  rewrite fold_start_base. reflexivity.
Qed.

Lemma pushFiles_base (fs : list File) (pid : string) (t : UM) :
  baseLocation (snd (pushFiles fs pid t)) = baseLocation t.
Proof.
  revert t. induction fs as [|f fs IH]; intros t; simpl; [reflexivity|].
  match goal with |- context [pushFiles fs pid ?s1] =>
    specialize (IH s1); destruct (pushFiles fs pid s1) end. exact IH.
Qed.

(** [baseLocation.replace(/^\/+|\/+$/g, '')] takes off exactly the
    slashes at both ends: the result, between some slashes, is the given
    string, and it neither starts nor ends with a slash.  Hence the base
    location of a constructed manager never starts or ends with a slash,
    whatever [updateConfig] it went through. *)
Theorem trim_slashes_spec :
  (forall b : string,
     (exists n m, list_ascii_of_string b
        = repeat "/"%char n ++ list_ascii_of_string (trim_slashes b) ++ repeat "/"%char m)
     /\ (forall r, list_ascii_of_string (trim_slashes b) <> "/"%char :: r)
     /\ (forall r, list_ascii_of_string (trim_slashes b) <> r ++ ["/"%char]))
  /\ (forall e cfg s0 ops r, construct e cfg = Ok s0 ->
        list_ascii_of_string (baseLocation (run s0 ops)) <> "/"%char :: r
        /\ list_ascii_of_string (baseLocation (run s0 ops)) <> r ++ ["/"%char]).
Proof.
  assert (T : forall b : string,
     (exists n m, list_ascii_of_string b
        = repeat "/"%char n ++ list_ascii_of_string (trim_slashes b) ++ repeat "/"%char m)
     /\ (forall r, list_ascii_of_string (trim_slashes b) <> "/"%char :: r)
     /\ (forall r, list_ascii_of_string (trim_slashes b) <> r ++ ["/"%char])).
  { intros b. unfold trim_slashes. rewrite list_ascii_of_string_of_list_ascii.
    set (d1 := drop_slashes (list_ascii_of_string b)).
    set (d2 := drop_slashes (rev d1)).
    destruct (drop_slashes_split (list_ascii_of_string b)) as [n Hn].
    destruct (drop_slashes_split (rev d1)) as [m Hm].
    assert (D1 : d1 = rev d2 ++ repeat "/"%char m).
    { rewrite <- (rev_involutive d1). fold d2 in Hm. rewrite Hm, rev_app_distr, rev_repeat_ascii.
      reflexivity. }
    split; [|split].
    - exists n, m. rewrite Hn at 1. fold d1. rewrite D1. reflexivity.
    - intros r H. apply (drop_slashes_head (list_ascii_of_string b) (r ++ repeat "/"%char m)).
      fold d1. rewrite D1, H. reflexivity.
    - intros r H. apply (drop_slashes_head (rev d1) (rev r)). fold d2.
      rewrite <- (rev_involutive d2), H, rev_app_distr. reflexivity. }
  split; [exact T|].
  assert (Inv : forall ops s, (forall r, list_ascii_of_string (baseLocation s) <> "/"%char :: r
                                  /\ list_ascii_of_string (baseLocation s) <> r ++ ["/"%char]) ->
            forall r, list_ascii_of_string (baseLocation (run s ops)) <> "/"%char :: r
                      /\ list_ascii_of_string (baseLocation (run s ops)) <> r ++ ["/"%char]).
  { induction ops as [|o ops IH]; intros s H; simpl; [exact H|]. apply IH.
    destruct o as [fs pid|k out|k r0|c| |x]; simpl.
    - unfold addToQueue.
      pose proof (pushFiles_base fs pid s) as P.
      destruct (pushFiles fs pid s) as [ids s1]. simpl in *.
      rewrite processQueue_base, P. exact H.
    - unfold settle. destruct (nth_error (inflight s) k); [|exact H].
      rewrite processQueue_base. destruct out; exact H.
    - unfold tick. destruct (nth_error (timers s) k); [|exact H].
      destruct (_ && _); [|exact H]. destruct (negb _); exact H.
    - unfold updateConfig. destruct (cfg_baseLocation c) as [b|]; simpl; [|exact H].
      intros r. destruct (T b) as [_ [T2 T3]]. split; [apply T2|apply T3].
    - exact H.
    - unfold removeFromQueue. destruct (findIndex x (queue s)); exact H. }
  intros e cfg s0 ops r Hc. apply Inv. unfold construct in Hc.
  destruct (_ || _); [discriminate|]. injection Hc as <-. simpl.
  destruct cfg as [c|]; [destruct (cfg_baseLocation c) as [b|]|]; intros r0.
  - destruct (T b) as [_ [T2 T3]]. split; [apply T2|apply T3].
  - split; [discriminate|]. intros Hr. destruct r0 as [|a r0]; [discriminate|].
    do 9 (try (destruct r0 as [|? r0]; [discriminate|])). simpl in Hr.
    injection Hr; intros; subst; destruct r0; discriminate.
  - split; [discriminate|]. intros Hr. destruct r0 as [|a r0]; [discriminate|].
    do 9 (try (destruct r0 as [|? r0]; [discriminate|])). simpl in Hr.
    injection Hr; intros; subst; destruct r0; discriminate.
Qed.

Lemma trim_slashes_spec_witness :
  list_ascii_of_string (baseLocation (run Fixtures.um0
    [UpdateConfig (mkConfig None (Some "//media/")); AddToQueue [Fixtures.png 1] "p"]))
  <> "/"%char :: list_ascii_of_string "media".
Proof.
  apply (proj2 trim_slashes_spec Fixtures.env_keys None). reflexivity.
Defined.

End ManagerExtras.

(** * The callbacks of [UploadManager] *)

Module CallbackProofs.

Import UploadManager Runs Observe.

Lemma terminal_ids_app (a b : list Callback) :
  terminal_ids (a ++ b) = terminal_ids a ++ terminal_ids b.
Proof. unfold terminal_ids. apply flat_map_app. Qed.

Lemma completed_ids_app (a b : list Callback) :
  completed_ids (a ++ b) = completed_ids a ++ completed_ids b.
Proof. unfold completed_ids. apply flat_map_app. Qed.

Lemma completed_terminal (cs : list Callback) (x : nat) :
  In x (completed_ids cs) -> In x (terminal_ids cs).
Proof.
  unfold completed_ids, terminal_ids.
  induction cs as [|c cs IH]; simpl; [tauto|].
  destruct c; simpl; intuition.
Qed.

Lemma quiet_app (a b : list Callback) :
  quiet_after_complete a -> quiet_after_complete b ->
  (forall x p, In x (completed_ids a) -> ~ In (OnProgress x p) b) ->
  quiet_after_complete (a ++ b).
Proof.
  induction a as [|c a IH]; intros Ha Hb Hx; [exact Hb|].
  destruct c as [x p|x|x m]; simpl in Ha |- *.
  - apply IH; [exact Ha|exact Hb|]. intros y q Hy. apply Hx. exact Hy.
  - split.
    + intros q Hin. apply in_app_or in Hin as [H|H]; [exact (proj1 Ha q H)|].
      apply (Hx x q); [simpl; left; reflexivity|exact H].
    + apply IH; [exact (proj2 Ha)|exact Hb|]. intros y q Hy. apply Hx.
      simpl. right. exact Hy.
  - apply IH; [exact Ha|exact Hb|]. intros y q Hy. apply Hx. exact Hy.
Qed.

Lemma quiet_split (pre post : list Callback) (x : nat) (p : Q) :
  quiet_after_complete (pre ++ OnComplete x :: post) -> ~ In (OnProgress x p) post.
Proof.
  induction pre as [|c pre IH]; [intros [H _]; apply H|].
  destruct c; simpl; intros H; apply IH; try exact H. exact (proj2 H).
Qed.

Lemma remove_nth_incl {A} (k : nat) (l : list A) (a : A) :
  In a (remove_nth k l) -> In a l.
Proof.
  revert k. induction l as [|b l IH]; intros k H; [destruct k; exact H|].
  destruct k as [|k]; simpl in H; [right; exact H|].
  destruct H as [<-|H]; [left; reflexivity|right; exact (IH k H)].
Qed.

(** A step that keeps the callbacks, hands out no id twice and only
    moves tasks between the queue and the uploads in flight, adding
    intervals at 0 for queued tasks. *)
Lemma cb_frame (s s' : UM) :
  emitted s' = emitted s -> (seed s <= seed s')%nat ->
  (forall y, In y (map id (queue s') ++ map id (inflight s')) ->
             In y (map id (queue s) ++ map id (inflight s))) ->
  (forall tm, In tm (timers s') -> In tm (timers s)
              \/ (In (tm_task tm) (map id (queue s)) /\ tm_progress tm = 0)) ->
  cb_inv s -> cb_inv s'.
Proof.
  intros He Hs Hq Ht [H1 [H2 [H3 [H4 H5]]]]. unfold cb_inv. rewrite He.
  split; [exact H1|]. split; [|split; [|split; [exact H4|exact H5]]].
  - intros x Hx. destruct (H2 x Hx) as [A B]. split; [|lia].
    intros C. apply A, Hq, C.
  - intros tm Htm. destruct (Ht tm Htm) as [T|[T P]]; [exact (H3 tm T)|].
    split; [|rewrite P; split; lra].
    intros C. apply completed_terminal in C. destruct (H2 _ C) as [A _].
    apply A, in_or_app. left. exact T.
Qed.

Lemma fold_start_timers (l : list UploadTask) (s : UM) :
  timers (fold_left startUpload l s) = timers s ++ map (fun t => mkTimer (id t) 0) l.
Proof.
  revert s. induction l as [|t l IH]; intros s; simpl; [symmetry; apply app_nil_r|].
  rewrite IH. simpl. rewrite <- app_assoc. reflexivity.
Qed.

Lemma processQueue_cb (s : UM) : cb_inv s -> cb_inv (processQueue s).
Proof.
  intros H. unfold processQueue. destruct (_ || _); [exact H|]. cbv zeta.
  set (n := splice_count _ _).
  destruct (ClassProofs.fold_start_frame (firstn n (queue s))
              (set_queue (skipn n (queue s)) s)) as [F1 [F2 [_ F4]]].
  apply (cb_frame s); [ | | | |exact H].
  - rewrite (proj2 (ClassProofs.fold_start_enq _ _)). reflexivity.
  - exact F4.
  - intros y Hy. rewrite F1, F2 in Hy. simpl in Hy.
    rewrite <- (firstn_skipn n (queue s)).
    rewrite !map_app, !in_app_iff in Hy. rewrite !map_app, !in_app_iff. tauto.
  - intros tm Htm. rewrite fold_start_timers in Htm. simpl in Htm.
    apply in_app_or in Htm as [T|T]; [left; exact T|right].
    apply in_map_iff in T as [t [<- Ht]]. simpl. split; [|reflexivity].
    apply in_map. rewrite <- (firstn_skipn n (queue s)). apply in_or_app.
    left. exact Ht.
Qed.

Lemma pushFiles_timers (files : list File) (pid : string) (s : UM) :
  timers (snd (pushFiles files pid s)) = timers s.
Proof.
  revert s. induction files as [|f fs IH]; intros s; simpl; [reflexivity|].
  match goal with |- context [pushFiles fs pid ?s1] =>
    specialize (IH s1); destruct (pushFiles fs pid s1) as [ids s2] end.
  simpl in *. exact IH.
Qed.

Lemma pushFiles_cb (files : list File) (pid : string) (s : UM) :
  cb_inv s -> cb_inv (snd (pushFiles files pid s)).
Proof.
  intros [H1 [H2 [H3 [H4 H5]]]].
  destruct (ClassProofs.pushFiles_frame files pid s) as [_ [_ [Fi Fe]]].
  destruct (ClassProofs.push_spec files pid s) as [P1 [[ts [P2 P3]] [_ [_ P5]]]].
  unfold cb_inv. rewrite Fe, (pushFiles_timers files pid s), Fi, P2, P5.
  split; [exact H1|]. split; [|split; [exact H3|split; [exact H4|exact H5]]].
  intros x Hx. destruct (H2 x Hx) as [A B]. split; [|lia].
  rewrite map_app, P3, P1, <- app_assoc. intros C.
  apply in_app_or in C as [C|C]; [apply A, in_or_app; left; exact C|].
  apply in_app_or in C as [C|C]; [apply in_seq in C; lia|].
  apply A, in_or_app. right. exact C.
Qed.

Lemma skipn_incl {A} (n : nat) (l : list A) (a : A) : In a (skipn n l) -> In a l.
Proof.
  revert n. induction l as [|b l IH]; intros n H; [destruct n; exact H|].
  destruct n as [|n]; [exact H|]. right. exact (IH n H).
Qed.

Lemma settle_cb (k : nat) (o : Outcome) (s : UM) :
  slots s -> cb_inv s -> cb_inv (settle k o s).
Proof.
  intros [_ [Hnd Hlt]] H. unfold settle.
  destruct (nth_error (inflight s) k) as [t|] eqn:Hk; [|exact H].
  apply processQueue_cb.
  destruct H as [H1 [H2 [H3 [H4 H5]]]].
  assert (Tin : In (id t) (map id (inflight s)))
    by (apply in_map, (nth_error_In _ _ Hk)).
  assert (Tq : ~ In (id t) (map id (queue s)))
    by (intros C; exact (ClassProofs.nodup_app_disj _ _ _ Hnd C Tin)).
  assert (Hperm : Permutation (map id (inflight s))
                    (id t :: map id (remove_nth k (inflight s))))
    by (exact (Permutation_map id (ClassProofs.remove_nth_perm _ _ _ Hk))).
  assert (Tr : ~ In (id t) (map id (remove_nth k (inflight s)))).
  { pose proof (Permutation_NoDup Hperm (NoDup_app_remove_l _ _ Hnd)) as N.
    inversion N; assumption. }
  assert (Rsub : forall y, In y (map id (remove_nth k (inflight s))) ->
                           In y (map id (inflight s))).
  { intros y Hy. apply in_map_iff in Hy as [u [<- Hu]].
    apply in_map, (remove_nth_incl k), Hu. }
  assert (Tlt : (id t < seed s)%nat).
  { rewrite Forall_forall in Hlt. apply Hlt, in_or_app. right. exact Tin. }
  assert (Tnt : ~ In (id t) (terminal_ids (emitted s))).
  { intros C. apply (proj1 (H2 _ C)), in_or_app. right. exact Tin. }
  assert (Tnc : ~ In (id t) (completed_ids (emitted s)))
    by (intros C; apply Tnt, completed_terminal, C).
  assert (ND : NoDup (terminal_ids (emitted s) ++ [id t])).
  { apply Permutation_NoDup with (id t :: terminal_ids (emitted s));
      [apply Permutation_cons_append|constructor; assumption]. }
  assert (Disj : forall x, In x (terminal_ids (emitted s) ++ [id t]) ->
            ~ In x (map id (queue s) ++ map id (remove_nth k (inflight s)))
            /\ (x < seed s)%nat).
  { intros x Hx. apply in_app_or in Hx as [Hx|[<-|[]]].
    - destruct (H2 x Hx) as [A B]. split; [|exact B]. intros C. apply A.
      apply in_app_or in C as [C|C]; apply in_or_app; [left; exact C|right; apply Rsub, C].
    - split; [|exact Tlt]. intros C.
      apply in_app_or in C as [C|C]; [exact (Tq C)|exact (Tr C)]. }
  destruct o as [|m]; unfold cb_inv; simpl.
  - rewrite <- app_assoc. simpl.
    rewrite terminal_ids_app, completed_ids_app.
    change (terminal_ids [OnProgress (id t) 100; OnComplete (id t)]) with [id t].
    change (completed_ids [OnProgress (id t) 100; OnComplete (id t)]) with [id t].
    split; [exact ND|]. split; [exact Disj|]. split; [|split].
    + intros tm Htm. apply filter_In in Htm as [Htm Hne].
      destruct (H3 tm Htm) as [A B]. split; [|exact B]. intros C.
      apply in_app_or in C as [C|[C|[]]]; [exact (A C)|].
      rewrite <- C, Nat.eqb_refl in Hne. discriminate.
    + intros x p Hx. apply in_app_or in Hx as [Hx|[Hx|[Hx|[]]]];
        [exact (H4 x p Hx)| |discriminate].
      injection Hx as _ <-. split; lra.
    + apply quiet_app; [exact H5|split; [intros q C; exact C|exact I]|].
      intros x p Hx Hin. destruct Hin as [Hin|[Hin|[]]]; [|discriminate].
      injection Hin as <- _. exact (Tnc Hx).
  - rewrite terminal_ids_app, completed_ids_app.
    change (terminal_ids [OnError (id t) m]) with [id t].
    change (completed_ids [OnError (id t) m]) with (@nil nat).
    rewrite app_nil_r.
    split; [exact ND|]. split; [exact Disj|]. split; [exact H3|split].
    + intros x p Hx. apply in_app_or in Hx as [Hx|[Hx|[]]];
        [exact (H4 x p Hx)|discriminate].
    + apply quiet_app; [exact H5|exact I|]. intros x p _ [C|[]]. discriminate.
Qed.

Lemma tick_cb (k : nat) (r : Q) (s : UM) : cb_inv s -> cb_inv (tick k r s).
Proof.
  intros H. unfold tick. destruct (nth_error (timers s) k) as [tm|] eqn:Hk; [|exact H].
  destruct (Qle_bool 0 r && negb (Qle_bool 1 r)) eqn:Hr; [|exact H].
  destruct (negb (Qle_bool 90 (tm_progress tm))) eqn:Hp; [|exact H].
  apply andb_true_iff in Hr as [Hr0 Hr1]. apply Qle_bool_iff in Hr0.
  apply negb_true_iff in Hr1, Hp.
  assert (R1 : r < 1)
    by (apply Qnot_le_lt; intros C; apply Qle_bool_iff in C; congruence).
  assert (P1 : tm_progress tm < 90)
    by (apply Qnot_le_lt; intros C; apply Qle_bool_iff in C; congruence).
  destruct H as [H1 [H2 [H3 [H4 H5]]]].
  destruct (H3 tm (nth_error_In _ _ Hk)) as [Tc [P0 _]].
  unfold cb_inv. simpl.
  rewrite terminal_ids_app, completed_ids_app.
  change (terminal_ids [OnProgress (tm_task tm) (tm_progress tm + r * 10)]) with (@nil nat).
  change (completed_ids [OnProgress (tm_task tm) (tm_progress tm + r * 10)]) with (@nil nat).
  rewrite !app_nil_r.
  split; [exact H1|]. split; [exact H2|]. split; [|split].
  - intros tm' Htm. apply in_app_or in Htm as [Htm|[<-|Htm]].
    + apply H3. rewrite <- (firstn_skipn k (timers s)). apply in_or_app. left. exact Htm.
    + simpl. split; [exact Tc|]. split; lra.
    + apply H3, (skipn_incl (S k)), Htm.
  - intros x p Hx. apply in_app_or in Hx as [Hx|[Hx|[]]]; [exact (H4 x p Hx)|].
    injection Hx as _ <-. split; lra.
  - apply quiet_app; [exact H5|exact I|]. intros x p Hx [C|[]].
    injection C as <- _. exact (Tc Hx).
Qed.

Lemma run_op_cb (s : UM) (o : op) : slots s -> cb_inv s -> cb_inv (run_op s o).
Proof.
  intros Hs H. destruct o as [fs pid|k o|k r|c| |x]; cbn [run_op].
  - unfold addToQueue. pose proof (pushFiles_cb fs pid s H) as Hp.
    destruct (pushFiles fs pid s) as [ids s1]. apply processQueue_cb, Hp.
  - apply settle_cb; assumption.
  - apply tick_cb, H.
  - apply (cb_frame s); [reflexivity|apply le_n|intros y Hy; exact Hy
                        |intros tm T; left; exact T|exact H].
  - apply (cb_frame s); [reflexivity|apply le_n| |intros tm T; left; exact T|exact H].
    intros y Hy. simpl in Hy. apply in_or_app. right. exact Hy.
  - unfold removeFromQueue. destruct (findIndex x (queue s)) as [i|]; [|exact H].
    apply (cb_frame s); [reflexivity|apply le_n| |intros tm T; left; exact T|exact H].
    intros y Hy. simpl in Hy.
    apply in_app_or in Hy as [Hy|Hy]; apply in_or_app; [left|right; exact Hy].
    apply in_map_iff in Hy as [u [<- Hu]]. apply in_map, (remove_nth_incl i), Hu.
Qed.

Lemma run_cb (ops : list op) (s : UM) : slots s -> cb_inv s -> cb_inv (run s ops).
Proof.
  revert s. induction ops as [|o ops IH]; intros s Hs H; [exact H|].
  change (run s (o :: ops)) with (run (run_op s o) ops).
  apply IH; [apply ClassProofs.run_op_slots, Hs|apply run_op_cb; assumption].
Qed.

Lemma construct_cb (e : Env) (cfg : option UploadManagerConfig) (s : UM) :
  construct e cfg = Ok s -> cb_inv s.
Proof.
  unfold construct. destruct (_ || _); [discriminate|].
  intros Hc. injection Hc as <-.
  unfold cb_inv. simpl. split; [constructor|].
  split; [intros x []|]. split; [intros tm []|]. split; [intros x p []|exact I].
Qed.

(** Every [onProgress] value a manager reports lies in [0, 100], and no
    [onProgress] of a task comes after its [onComplete] (the interval is
    cleared before [onComplete]; after [onError] it is not). *)
Theorem progress_callbacks (e : Env) (cfg : option UploadManagerConfig)
  (s0 : UM) (ops : list op) :
  construct e cfg = Ok s0 ->
  (forall x p, In (OnProgress x p) (emitted (run s0 ops)) -> 0 <= p <= 100)
  /\ (forall pre x post p, emitted (run s0 ops) = pre ++ OnComplete x :: post ->
        ~ In (OnProgress x p) post).
Proof.
  intros Hc.
  destruct (run_cb ops s0 (ManagerExtras.construct_slots e cfg s0 Hc)
              (construct_cb e cfg s0 Hc)) as [_ [_ [_ [H4 H5]]]].
  split; [exact H4|]. intros pre x post p He. rewrite He in H5.
  exact (quiet_split pre post x p H5).
Qed.

Lemma progress_callbacks_witness :
  (forall x p, In (OnProgress x p) (emitted (run Fixtures.um0
     [AddToQueue [Fixtures.png 1] "p"; Tick 0 (1#2); Settle 0 SendOk])) -> 0 <= p <= 100)
  /\ (forall pre x post p, emitted (run Fixtures.um0
     [AddToQueue [Fixtures.png 1] "p"; Tick 0 (1#2); Settle 0 SendOk])
       = pre ++ OnComplete x :: post -> ~ In (OnProgress x p) post).
Proof. apply (progress_callbacks Fixtures.env_keys None). reflexivity. Defined.

End CallbackProofs.

(** * Properties of the hook of part_008 *)

Module HookInvariants.

Import Hook HookQueries.

Lemma ustatus_eqb_true (a b : UStatus) : ustatus_eqb a b = true -> a = b.
Proof. destruct a, b; simpl; congruence. Qed.

Lemma Forall_map_id (P : UploadStatus -> Prop) (x : nat)
  (f : UploadStatus -> UploadStatus) (l : list UploadStatus) :
  (forall u, P u -> P (f u)) -> Forall P l -> Forall P (map_id x f l).
Proof.
  intros Hf H. unfold map_id. apply Forall_map. eapply Forall_impl; [|exact H].
  intros u Hu. destruct (Nat.eqb (u_id u) x); [apply Hf|]; exact Hu.
Qed.

(** A property of entries kept by every updater of the hook holds of
    every entry of every reachable list. *)
Section Entries.

Variable P : UploadStatus -> Prop.
Hypothesis P_new : forall f pid,
  P (mkStatus (f_uuid f) (f_name f) 0 Queued None None (Some f) (Some pid)).
Hypothesis P_uploading : forall u, P u -> P (to_uploading u).
Hypothesis P_bump : forall u, P u -> status u = Uploading -> P (bump u).
Hypothesis P_completed : forall l u, P u -> P (to_completed l u).
Hypothesis P_error : forall e u, P u -> P (to_error e u).
Hypothesis P_reset : forall u, P u -> P (reset u).

Lemma admitLoop_entries (q : list (File * nat)) (r : nat) (pid : string) (s : HS) :
  Forall P (uploads s) -> Forall P (uploads (snd (admitLoop q r pid s))).
Proof.
  revert s. induction q as [|[f uid] q IH]; intros s H; simpl; [exact H|].
  destruct (Nat.ltb _ _); simpl; [|exact H].
  apply IH. simpl. apply Forall_map_id; [exact P_uploading|exact H].
Qed.

Lemma loopIter_entries (k : nat) (s : HS) :
  Forall P (uploads s) -> Forall P (uploads (loopIter k s)).
Proof.
  intros H. unfold loopIter. destruct (nth_error (loops s) k) as [l|]; [|exact H].
  destruct (_ && _); [exact H|].
  pose proof (admitLoop_entries (fileQueue l) (loopSet l) (loopPid l) s H) as H1.
  destruct (admitLoop (fileQueue l) (loopSet l) (loopPid l) s) as [q' s1]. exact H1.
Qed.

Lemma hrun_op_entries (s : HS) (o : hop) :
  Forall P (uploads s) -> Forall P (uploads (hrun_op s o)).
Proof.
  intros H. destruct o as [fs pid|k|k|k out|x|x|]; simpl.
  - unfold uploadFiles. simpl. apply loopIter_entries. simpl.
    apply Forall_map. apply Forall_forall. intros f _. apply P_new.
  - apply loopIter_entries, H.
  - unfold intervalTick. destruct (nth_error (intervals s) k); [|exact H].
    simpl. apply Forall_map. eapply Forall_impl; [|exact H].
    intros u Hu. destruct (_ && _) eqn:E; [|exact Hu].
    apply andb_true_iff in E as [_ E]. apply P_bump; [exact Hu|].
    apply ustatus_eqb_true, E.
  - unfold settleSingle. destruct (nth_error (flights s) k) as [fl|]; [|exact H].
    destruct out as [resp|m]; simpl.
    + destruct (_ && _); simpl; apply Forall_map_id; auto.
    + apply Forall_map_id; auto.
  - unfold retryUpload. destruct (find _ _) as [u|]; [|exact H].
    destruct (status u), (u_file u), (u_propertyId u) as [pid|]; try exact H.
    destruct (String.eqb pid ""); [exact H|].
    simpl. apply Forall_map_id; [exact P_uploading|].
    apply Forall_map_id; [exact P_reset|exact H].
  - apply Forall_forall. intros u Hu. apply filter_In in Hu as [Hu _].
    rewrite Forall_forall in H. exact (H u Hu).
  - constructor.
Qed.

Lemma hrun_entries (ops : list hop) (s : HS) :
  Forall P (uploads s) -> Forall P (uploads (hrun s ops)).
Proof.
  revert s. induction ops as [|o ops IH]; intros s H; [exact H|].
  change (hrun s (o :: ops)) with (hrun (hrun_op s o) ops).
  apply IH, hrun_op_entries, H.
Qed.

End Entries.

Lemma entry_ok_new (f : File) (pid : string) :
  entry_ok (mkStatus (f_uuid f) (f_name f) 0 Queued None None (Some f) (Some pid)).
Proof. unfold entry_ok; simpl. repeat split; intros; try discriminate; lia. Qed.

Lemma entry_ok_uploading (u : UploadStatus) : entry_ok u -> entry_ok (to_uploading u).
Proof. intros _. unfold entry_ok; simpl. repeat split; intros; try discriminate; lia. Qed.

Lemma entry_ok_bump (u : UploadStatus) :
  entry_ok u -> status u = Uploading -> entry_ok (bump u).
Proof.
  intros [[A B] [C [_ [E _]]]] Hs. specialize (E Hs).
  unfold entry_ok, bump; simpl. rewrite Hs.
  destruct (Z.min_spec (progress u + 10) 90) as [[M ->]|[M ->]];
    repeat split; intros; try discriminate; Z.to_euclidean_division_equations; lia.
Qed.

Lemma entry_ok_completed (l : option string) (u : UploadStatus) :
  entry_ok u -> entry_ok (to_completed l u).
Proof. intros _. unfold entry_ok; simpl. repeat split; intros; try discriminate; lia. Qed.

Lemma entry_ok_error (e : string) (u : UploadStatus) :
  entry_ok u -> entry_ok (to_error e u).
Proof.
  intros [A [B _]]. unfold entry_ok; simpl.
  repeat split; intros; try discriminate; lia.
Qed.

Lemma entry_ok_reset (u : UploadStatus) : entry_ok u -> entry_ok (reset u).
Proof. intros _. unfold entry_ok; simpl. repeat split; intros; try discriminate; lia. Qed.

(** Every entry of the hook's list has a progress that is a multiple of
    10 between 0 and 100: 0 while queued, 10 to 90 while uploading, 100
    once completed; an entry in error keeps the progress it had. *)
Theorem entries_progress (ops : list hop) :
  Forall entry_ok (uploads (hrun hinit ops)).
Proof.
  apply hrun_entries.
  - exact entry_ok_new.
  - exact entry_ok_uploading.
  - exact entry_ok_bump.
  - exact entry_ok_completed.
  - exact entry_ok_error.
  - exact entry_ok_reset.
  - constructor.
Qed.

Lemma map_id_ids (x : nat) (f : UploadStatus -> UploadStatus) (l : list UploadStatus) :
  (forall u, u_id (f u) = u_id u) -> map u_id (map_id x f l) = map u_id l.
Proof.
  intros Hf. unfold map_id. rewrite map_map. apply map_ext. intros u.
  destruct (Nat.eqb (u_id u) x); [apply Hf|reflexivity].
Qed.

Lemma admitLoop_ids (q : list (File * nat)) (r : nat) (pid : string) (s : HS) :
  map u_id (uploads (snd (admitLoop q r pid s))) = map u_id (uploads s)
  /\ isUploading (snd (admitLoop q r pid s)) = isUploading s.
Proof.
  revert s. induction q as [|[f uid] q IH]; intros s; simpl; [split; reflexivity|].
  destruct (Nat.ltb _ _); simpl; [|split; reflexivity].
  destruct (IH (startSingle f uid pid r (set_upd r (UploadManager.set_add uid) s))) as [A B].
  rewrite A, B.
  split; [apply (map_id_ids uid to_uploading (uploads s)); reflexivity|reflexivity].
Qed.

Lemma loopIter_ids (k : nat) (s : HS) :
  map u_id (uploads (loopIter k s)) = map u_id (uploads s)
  /\ (isUploading (loopIter k s) = true -> isUploading s = true).
Proof.
  unfold loopIter. destruct (nth_error (loops s) k) as [l|]; [|split; auto].
  destruct (_ && _); [split; [reflexivity|discriminate]|].
  destruct (admitLoop_ids (fileQueue l) (loopSet l) (loopPid l) s) as [A B].
  destruct (admitLoop (fileQueue l) (loopSet l) (loopPid l) s) as [q' s1].
  simpl in *. rewrite A, B. split; auto.
Qed.

(** Outside [uploadFiles], no event adds an id to the list or sets
    [isUploading]. *)
Lemma hrun_op_ids (s : HS) (o : hop) :
  not_uploadFiles o = true ->
  incl (map u_id (uploads (hrun_op s o))) (map u_id (uploads s))
  /\ (isUploading (hrun_op s o) = true -> isUploading s = true).
Proof.
  intros Ho. destruct o as [fs pid|k|k|k out|x|x|]; simpl; [discriminate| | | | | |].
  - destruct (loopIter_ids k s) as [A B]. rewrite A. split; [apply incl_refl|exact B].
  - unfold intervalTick. destruct (nth_error (intervals s) k); [|split; auto using incl_refl].
    simpl. rewrite map_map.
    replace (map _ (uploads s)) with (map u_id (uploads s));
      [split; auto using incl_refl|].
    apply map_ext. intros u. destruct (_ && _); reflexivity.
  - unfold settleSingle. destruct (nth_error (flights s) k) as [fl|];
      [|split; auto using incl_refl].
    destruct out as [resp|m]; simpl.
    + destruct (_ && _); simpl; rewrite map_id_ids; auto using incl_refl.
    + rewrite map_id_ids; auto using incl_refl.
  - unfold retryUpload. destruct (find _ _) as [u|]; [|split; auto using incl_refl].
    destruct (status u), (u_file u), (u_propertyId u) as [pid|];
      try solve [split; auto using incl_refl].
    destruct (String.eqb pid ""); [split; auto using incl_refl|].
    simpl. rewrite !map_id_ids; auto using incl_refl.
  - split; [|auto]. intros y Hy. apply in_map_iff in Hy as [u [<- Hu]].
    apply filter_In in Hu as [Hu _]. apply in_map, Hu.
  - split; [intros y []|discriminate].
Qed.

Lemma hrun_ids (ops : list hop) (s : HS) :
  forallb not_uploadFiles ops = true ->
  incl (map u_id (uploads (hrun s ops))) (map u_id (uploads s))
  /\ (isUploading (hrun s ops) = true -> isUploading s = true).
Proof.
  revert s. induction ops as [|o ops IH]; intros s H; [split; auto using incl_refl|].
  simpl in H. apply andb_true_iff in H as [Ho H].
  change (hrun s (o :: ops)) with (hrun (hrun_op s o) ops).
  destruct (IH (hrun_op s o) H) as [A B]. destruct (hrun_op_ids s o Ho) as [C D].
  split; [exact (incl_tran A C)|auto].
Qed.

(** [removeUpload(x)] only hides the entry: the transfer of [x], its
    interval and its loop go on, and until the next [uploadFiles] no
    event, the settling of that transfer or a [retryUpload(x)] included,
    brings an entry with id [x] back. *)
Theorem removeUpload_hides (s : HS) (x : nat) (ops : list hop) :
  forallb not_uploadFiles ops = true ->
  ~ In x (map u_id (uploads (hrun (removeUpload x s) ops)))
  /\ flights (removeUpload x s) = flights s
  /\ intervals (removeUpload x s) = intervals s
  /\ loops (removeUpload x s) = loops s.
Proof.
  intros H. split; [|repeat split].
  intros C. apply (proj1 (hrun_ids ops _ H)) in C.
  apply in_map_iff in C as [u [Hx Hu]]. simpl in Hu.
  apply filter_In in Hu as [_ Hu]. rewrite Hx, Nat.eqb_refl in Hu. discriminate.
Qed.

Lemma removeUpload_hides_witness :
  ~ In 1%nat (map u_id (uploads (hrun (removeUpload 1
      (hrun hinit [HUploadFiles [Fixtures.png 1; Fixtures.png 2] "p"]))
      [HSettle 0 Fixtures.fetch_fail; HPoll 0; HTick 0; HRetry 1])))
  /\ flights (removeUpload 1 (hrun hinit [HUploadFiles [Fixtures.png 1; Fixtures.png 2] "p"]))
     = flights (hrun hinit [HUploadFiles [Fixtures.png 1; Fixtures.png 2] "p"])
  /\ intervals (removeUpload 1 (hrun hinit [HUploadFiles [Fixtures.png 1; Fixtures.png 2] "p"]))
     = intervals (hrun hinit [HUploadFiles [Fixtures.png 1; Fixtures.png 2] "p"])
  /\ loops (removeUpload 1 (hrun hinit [HUploadFiles [Fixtures.png 1; Fixtures.png 2] "p"]))
     = loops (hrun hinit [HUploadFiles [Fixtures.png 1; Fixtures.png 2] "p"]).
Proof. apply removeUpload_hides. reflexivity. Defined.

(** [clearUploads()] empties the list and sets [isUploading] to false
    but stops nothing: transfers, intervals and loops go on, and until
    the next [uploadFiles] the list stays empty and [isUploading] false,
    whatever those uploads do. *)
Theorem clearUploads_hides (s : HS) (ops : list hop) :
  forallb not_uploadFiles ops = true ->
  uploads (hrun (clearUploads s) ops) = []
  /\ isUploading (hrun (clearUploads s) ops) = false
  /\ flights (clearUploads s) = flights s
  /\ intervals (clearUploads s) = intervals s
  /\ loops (clearUploads s) = loops s.
Proof.
  intros H. destruct (hrun_ids ops (clearUploads s) H) as [A B].
  split; [|split; [|repeat split]].
  - apply incl_l_nil in A. apply map_eq_nil in A. exact A.
  - destruct (isUploading (hrun (clearUploads s) ops)); [|reflexivity].
    symmetry. apply B. reflexivity.
Qed.

Lemma clearUploads_hides_witness :
  uploads (hrun (clearUploads (hrun hinit [HUploadFiles [Fixtures.png 1; Fixtures.png 2;
      Fixtures.png 3; Fixtures.png 4] "p"])) [HPoll 0; HSettle 0 Fixtures.fetch_fail; HTick 1]) = []
  /\ isUploading (hrun (clearUploads (hrun hinit [HUploadFiles [Fixtures.png 1;
      Fixtures.png 2; Fixtures.png 3; Fixtures.png 4] "p"]))
      [HPoll 0; HSettle 0 Fixtures.fetch_fail; HTick 1]) = false
  /\ flights (clearUploads (hrun hinit [HUploadFiles [Fixtures.png 1; Fixtures.png 2;
      Fixtures.png 3; Fixtures.png 4] "p"]))
     = flights (hrun hinit [HUploadFiles [Fixtures.png 1; Fixtures.png 2;
      Fixtures.png 3; Fixtures.png 4] "p"])
  /\ intervals (clearUploads (hrun hinit [HUploadFiles [Fixtures.png 1; Fixtures.png 2;
      Fixtures.png 3; Fixtures.png 4] "p"]))
     = intervals (hrun hinit [HUploadFiles [Fixtures.png 1; Fixtures.png 2;
      Fixtures.png 3; Fixtures.png 4] "p"])
  /\ loops (clearUploads (hrun hinit [HUploadFiles [Fixtures.png 1; Fixtures.png 2;
      Fixtures.png 3; Fixtures.png 4] "p"]))
     = loops (hrun hinit [HUploadFiles [Fixtures.png 1; Fixtures.png 2;
      Fixtures.png 3; Fixtures.png 4] "p"]).
Proof. apply clearUploads_hides. reflexivity. Defined.

End HookInvariants.

(** * From the hook through [apiClient] to the POST handler *)

Module EndToEnd.

Import Hook HookQueries ApiClient ImagesPost.

Lemma getCompletedUrls_no_url (x : nat) (l : list UploadStatus) :
  getCompletedUrls (map_id x (to_completed None) l)
  = getCompletedUrls (filter (fun u => negb (Nat.eqb (u_id u) x)) l).
Proof.
  induction l as [|u l IH]; [reflexivity|].
  unfold getCompletedUrls, map_id in *. simpl.
  destruct (Nat.eqb (u_id u) x); simpl; [exact IH|].
  destruct (ustatus_eqb (status u) Completed && truthy (url u)); simpl; [f_equal|]; exact IH.
Qed.

Lemma settle_uploads (k : nat) (fl : Flight) (resp : Response) (s : HS) :
  nth_error (flights s) k = Some fl ->
  uploads (settleSingle k (Returned resp) s)
  = if success resp && (match urls resp with Some _ => true | None => false end)
    then map_id (fl_uploadId fl)
           (to_completed (match urls resp with Some l => hd_error l | None => None end))
           (uploads s)
    else map_id (fl_uploadId fl) (to_error (or_failed (resp_error resp))) (uploads s).
Proof.
  intros Hk. unfold settleSingle. rewrite Hk. simpl.
  destruct (_ && _); reflexivity.
Qed.

(** An upload of the hook whose file is not an image, or whose transfer
    to R2 fails on the server, is answered with [success: true] and an
    empty [urls]: the entry is marked [completed] with progress 100 but
    gets no url, and [getCompletedUrls] reports nothing for it. *)
Theorem settle_without_url (uploadImage : File -> option string) (s : HS) (k : nat)
  (fl : Flight) (st : string) :
  nth_error (flights s) k = Some fl ->
  String.prefix "image/" (f_type (fl_file fl)) = false \/ uploadImage (fl_file fl) = None ->
  uploads (settleSingle k (Returned (uploadPropertyImages
             (Answered (post uploadImage NoFault true true [fl_file fl]) st))) s)
    = map_id (fl_uploadId fl) (to_completed None) (uploads s)
  /\ getCompletedUrls (uploads (settleSingle k (Returned (uploadPropertyImages
             (Answered (post uploadImage NoFault true true [fl_file fl]) st))) s))
    = getCompletedUrls (filter (fun u => negb (Nat.eqb (u_id u) (fl_uploadId fl))) (uploads s)).
Proof.
  intros Hk Hf.
  assert (E : processImages uploadImage [fl_file fl] = []).
  { simpl. destruct Hf as [Hf|Hf]; rewrite Hf; simpl; [reflexivity|].
    destruct (String.prefix _ _); reflexivity. }
  assert (U : uploads (settleSingle k (Returned (uploadPropertyImages
             (Answered (post uploadImage NoFault true true [fl_file fl]) st))) s)
              = map_id (fl_uploadId fl) (to_completed None) (uploads s)).
  { rewrite (settle_uploads k fl _ s Hk).
    assert (P : post uploadImage NoFault true true [fl_file fl]
                = Success (processImages uploadImage [fl_file fl])).
    { unfold post; cbn [negb]. destruct (processImages _ _); reflexivity. }
    rewrite P, E. reflexivity. }
  split; [exact U|]. rewrite U. apply getCompletedUrls_no_url.
Qed.

Lemma settle_without_url_witness :
  uploads (settleSingle 0 (Returned (uploadPropertyImages
     (Answered (post (fun _ => Some "u") NoFault true true
        [fl_file (mkFlight Fixtures.txt 0 "p" 0 0)]) "OK")))
     (hrun hinit [HUploadFiles [Fixtures.txt] "p"]))
    = map_id (fl_uploadId (mkFlight Fixtures.txt 0 "p" 0 0)) (to_completed None)
        (uploads (hrun hinit [HUploadFiles [Fixtures.txt] "p"]))
  /\ getCompletedUrls (uploads (settleSingle 0 (Returned (uploadPropertyImages
     (Answered (post (fun _ => Some "u") NoFault true true
        [fl_file (mkFlight Fixtures.txt 0 "p" 0 0)]) "OK")))
     (hrun hinit [HUploadFiles [Fixtures.txt] "p"])))
    = getCompletedUrls (filter (fun u => negb (Nat.eqb (u_id u)
        (fl_uploadId (mkFlight Fixtures.txt 0 "p" 0 0))))
        (uploads (hrun hinit [HUploadFiles [Fixtures.txt] "p"]))).
Proof.
  apply settle_without_url; [reflexivity|left; reflexivity].
Defined.

(** When the POST handler refuses the request, or [fetch] throws
    without a message, the entry goes to [error] with the handler's
    message, or ["Network error"]; its progress is kept. *)
Theorem settle_rejected (uploadImage : File -> option string) (s : HS) (k : nat)
  (fl : Flight) (st : string) (r2Configured : bool) :
  nth_error (flights s) k = Some fl ->
  uploads (settleSingle k (Returned (uploadPropertyImages
             (Answered (post uploadImage NoFault false r2Configured [fl_file fl]) st))) s)
    = map_id (fl_uploadId fl) (to_error "Property not found") (uploads s)
  /\ uploads (settleSingle k (Returned (uploadPropertyImages
             (Answered (post uploadImage NoFault true false [fl_file fl]) st))) s)
    = map_id (fl_uploadId fl) (to_error "Cloudflare R2 configuration missing") (uploads s)
  /\ uploads (settleSingle k (Returned (uploadPropertyImages (FetchThrew None))) s)
    = map_id (fl_uploadId fl) (to_error "Network error") (uploads s).
Proof.
  intros Hk. rewrite !(settle_uploads k fl _ s Hk). split; [|split]; reflexivity.
Qed.

Lemma settle_rejected_witness :
  uploads (settleSingle 0 (Returned (uploadPropertyImages
     (Answered (post (fun _ => None) NoFault false true
        [fl_file (mkFlight (Fixtures.png 1) 1 "p" 0 0)]) "Not Found")))
     (hrun hinit [HUploadFiles [Fixtures.png 1] "p"]))
    = map_id (fl_uploadId (mkFlight (Fixtures.png 1) 1 "p" 0 0))
        (to_error "Property not found") (uploads (hrun hinit [HUploadFiles [Fixtures.png 1] "p"]))
  /\ uploads (settleSingle 0 (Returned (uploadPropertyImages
     (Answered (post (fun _ => None) NoFault true false
        [fl_file (mkFlight (Fixtures.png 1) 1 "p" 0 0)]) "Not Found")))
     (hrun hinit [HUploadFiles [Fixtures.png 1] "p"]))
    = map_id (fl_uploadId (mkFlight (Fixtures.png 1) 1 "p" 0 0))
        (to_error "Cloudflare R2 configuration missing")
        (uploads (hrun hinit [HUploadFiles [Fixtures.png 1] "p"]))
  /\ uploads (settleSingle 0 (Returned (uploadPropertyImages (FetchThrew None)))
     (hrun hinit [HUploadFiles [Fixtures.png 1] "p"]))
    = map_id (fl_uploadId (mkFlight (Fixtures.png 1) 1 "p" 0 0))
        (to_error "Network error") (uploads (hrun hinit [HUploadFiles [Fixtures.png 1] "p"])).
Proof. apply settle_rejected. reflexivity. Defined.

(** The POST handler returns one url per image file of the request whose
    upload succeeded, and only those: non-image files and failed uploads
    are skipped without a trace in the answer. *)
Theorem processImages_urls (uploadImage : File -> option string) (images : list File) :
  List.length (processImages uploadImage images)
    = List.length (filter (fun f => String.prefix "image/" (f_type f)
                                    && match uploadImage f with Some _ => true | None => false end)
                          images)
  /\ (forall u, In u (processImages uploadImage images) ->
        exists f, In f images /\ String.prefix "image/" (f_type f) = true
                  /\ uploadImage f = Some u).
Proof.
  induction images as [|f images [IH1 IH2]]; simpl; [split; [reflexivity|intros u []]|].
  destruct (String.prefix "image/" (f_type f)) eqn:Ep; simpl.
  - destruct (uploadImage f) as [v|] eqn:Eu; simpl.
    + split; [f_equal; exact IH1|]. intros u [<-|Hu].
      * exists f. split; [left; reflexivity|split; [exact Ep|exact Eu]].
      * destruct (IH2 u Hu) as [g [A B]]. exists g. split; [right; exact A|exact B].
    + split; [exact IH1|]. intros u Hu.
      destruct (IH2 u Hu) as [g [A B]]. exists g. split; [right; exact A|exact B].
  - split; [exact IH1|]. intros u Hu.
    destruct (IH2 u Hu) as [g [A B]]. exists g. split; [right; exact A|exact B].
Qed.

End EndToEnd.

(** * Object keys and urls *)

Module KeyProofs.

Import Keys.

Lemma list_ascii_app (a b : string) :
  list_ascii_of_string (String.append a b)
  = list_ascii_of_string a ++ list_ascii_of_string b.
Proof. induction a as [|c a IH]; simpl; [reflexivity|]. rewrite IH. reflexivity. Qed.

Lemma string_of_app (a b : list ascii) :
  string_of_list_ascii (a ++ b) = String.append (string_of_list_ascii a) (string_of_list_ascii b).
Proof. induction a as [|c a IH]; simpl; [reflexivity|]. rewrite IH. reflexivity. Qed.

Lemma append_cancel_l (a x y : string) : String.append a x = String.append a y -> x = y.
Proof.
  induction a as [|c a IH]; simpl; [auto|]. intros H. injection H as H. apply IH, H.
Qed.

Lemma split_dot_aux_cons (l cur : list ascii) : split_dot_aux l cur <> [].
Proof.
  revert cur. induction l as [|c l IH]; intros cur; simpl; [discriminate|].
  destruct (Ascii.eqb c "."); [discriminate|apply IH].
Qed.

(** The last piece of [split('.')] has no dot; it is all the text when
    there is no dot, else what follows the last one. *)
Lemma split_dot_aux_last (l cur : list ascii) :
  ~ In "."%char cur ->
  ~ In "."%char (list_ascii_of_string (last (split_dot_aux l cur) ""))
  /\ ((~ In "."%char l
       /\ list_ascii_of_string (last (split_dot_aux l cur) "") = rev cur ++ l)
      \/ exists pre, l = pre ++ "."%char :: list_ascii_of_string (last (split_dot_aux l cur) "")).
Proof.
  revert cur. induction l as [|c l IH]; intros cur Hc; simpl.
  - rewrite list_ascii_of_string_of_list_ascii, app_nil_r.
    split; [|left; split; [intros []|reflexivity]].
    intros H. apply Hc. apply in_rev in H. try rewrite rev_involutive in H. exact H.
  - destruct (Ascii.eqb c ".") eqn:E.
    + apply Ascii.eqb_eq in E. subst c.
      assert (L : forall a, last (a :: split_dot_aux l []) "" = last (split_dot_aux l []) "").
      { intros a. simpl. destruct (split_dot_aux l []) eqn:Es; [|reflexivity].
        exfalso. exact (split_dot_aux_cons l [] Es). }
      rewrite L. destruct (IH [] (fun H => H)) as [N [[N1 N2]|[pre P]]]; split; try exact N.
      * right. exists []. simpl. rewrite N2. reflexivity.
      * right. exists ("."%char :: pre). simpl. rewrite <- P. reflexivity.
    + assert (Hc' : ~ In "."%char (c :: cur)).
      { intros [H|H]; [subst c; rewrite Ascii.eqb_refl in E; discriminate|exact (Hc H)]. }
      destruct (IH (c :: cur) Hc') as [N [[N1 N2]|[pre P]]]; split; try exact N.
      * left. split.
        -- intros [H|H]; [subst c; rewrite Ascii.eqb_refl in E; discriminate|exact (N1 H)].
        -- rewrite N2. simpl. rewrite <- app_assoc. reflexivity.
      * right. exists (c :: pre). simpl. rewrite <- P. reflexivity.
Qed.

Lemma fileExtension_nodot (name : string) :
  ~ In "."%char (list_ascii_of_string (fileExtension name)).
Proof.
  exact (proj1 (split_dot_aux_last (list_ascii_of_string name) [] (fun H => H))).
Qed.

Lemma imageExtension_nodot (type : string) :
  ~ In "."%char (list_ascii_of_string (imageExtension type)).
Proof.
  unfold imageExtension.
  destruct (_ || _); [|destruct (includes type "webp"); [|destruct (includes type "gif")]];
    simpl; intuition discriminate.
Qed.

Lemma dot_split (u u' e e' : string) :
  ~ In "."%char (list_ascii_of_string e) -> ~ In "."%char (list_ascii_of_string e') ->
  String.append u (String "." e) = String.append u' (String "." e') -> u = u' /\ e = e'.
Proof.
  revert u'. induction u as [|c u IH]; intros u' He He' H; destruct u' as [|c' u'];
    simpl in H.
  - injection H as ->. split; reflexivity.
  - injection H as <- H. exfalso. apply He. rewrite H, list_ascii_app.
    apply in_or_app. right. left. reflexivity.
  - injection H as -> H. exfalso. apply He'. rewrite <- H, list_ascii_app.
    apply in_or_app. right. left. reflexivity.
  - injection H as <- H. destruct (IH u' He He' H) as [-> ->]. split; reflexivity.
Qed.

(** [name.split('.').pop()] is the text after the last dot of [name]
    (empty when [name] ends with a dot), or all of [name] when it has no
    dot; it never contains a dot. *)
Theorem fileExtension_spec (name : string) :
  ~ In "."%char (list_ascii_of_string (fileExtension name))
  /\ ((~ In "."%char (list_ascii_of_string name) /\ fileExtension name = name)
      \/ exists pre, name = String.append pre (String "." (fileExtension name))).
Proof.
  unfold fileExtension, split_dot.
  destruct (split_dot_aux_last (list_ascii_of_string name) [] (fun H => H)) as [N R].
  set (ext := last (split_dot_aux (list_ascii_of_string name) []) "") in *.
  split; [exact N|]. destruct R as [[N1 N2]|[pre P]].
  - left. split; [exact N1|]. simpl in N2.
    rewrite <- (string_of_list_ascii_of_string ext), N2.
    apply string_of_list_ascii_of_string.
  - right. exists (string_of_list_ascii pre).
    transitivity (string_of_list_ascii (list_ascii_of_string name));
      [symmetry; apply string_of_list_ascii_of_string|].
    rewrite P, string_of_app. simpl. rewrite string_of_list_ascii_of_string. reflexivity.
Qed.

(** Under one base location and property, the object key of
    [uploadFile] determines the uuid and the extension: two uploads with
    different uuids never write the same object, whatever dots the uuid
    or the file names contain. *)
Theorem objectKey_injective (b p u u' n n' : string) :
  objectKey b p u n = objectKey b p u' n' -> u = u' /\ fileExtension n = fileExtension n'.
Proof.
  unfold objectKey, objectFilename. intros H.
  apply append_cancel_l in H. simpl in H. injection H as H.
  apply append_cancel_l in H. simpl in H. injection H as H. simpl in H.
  apply dot_split in H; [exact H|apply fileExtension_nodot|apply fileExtension_nodot].
Qed.

Lemma objectKey_injective_witness :
  "a.b"%string = "a.b"%string /\ fileExtension "x.png" = fileExtension "y.png".
Proof.
  apply (objectKey_injective "portfolio" "p1" "a.b" "a.b" "x.png" "y.png"). reflexivity.
Defined.

(** The url [uploadImage] returns determines the file name and the
    extension: different uuids give different urls and objects. *)
Theorem imageUrl_injective (e : Env) (p f f' t t' : string) :
  imageUrl e p f t = imageUrl e p f' t' -> f = f' /\ imageExtension t = imageExtension t'.
Proof.
  unfold imageUrl, imageKey. intros H.
  apply append_cancel_l in H. apply append_cancel_l in H. simpl in H. injection H as H.
  apply append_cancel_l in H. simpl in H. injection H as H. simpl in H.
  apply dot_split in H; [exact H|apply imageExtension_nodot|apply imageExtension_nodot].
Qed.

Lemma imageUrl_injective_witness :
  "f-1"%string = "f-1"%string /\ imageExtension "image/jpeg" = imageExtension "image/jpg".
Proof.
  apply (imageUrl_injective Fixtures.env_keys "p1" "f-1" "f-1" "image/jpeg" "image/jpg").
  reflexivity.
Defined.

End KeyProofs.

(** * How many transfers one [activeUploadsSet] holds *)

Module BatchProofs.

Import Hook HookQueries.

Lemma upd_nth_same {A} (l : list A) (r : nat) (x d : A) :
  (r < List.length l)%nat -> nth r (firstn r l ++ x :: skipn (S r) l) d = x.
Proof.
  revert r. induction l as [|a l IH]; intros r H; simpl in H; [lia|].
  destruct r as [|r]; simpl; [reflexivity|]. apply IH. lia.
Qed.

Lemma upd_nth_other {A} (l : list A) (r r' : nat) (x d : A) :
  r' <> r -> (r < List.length l)%nat ->
  nth r' (firstn r l ++ x :: skipn (S r) l) d = nth r' l d.
Proof.
  revert r r'. induction l as [|a l IH]; intros r r' Hne H; simpl in H; [lia|].
  destruct r as [|r], r' as [|r']; simpl; [congruence|reflexivity|reflexivity|].
  apply IH; lia.
Qed.

Lemma upd_length {A} (l : list A) (r : nat) (x : A) :
  (r < List.length l)%nat -> List.length (firstn r l ++ x :: skipn (S r) l) = List.length l.
Proof.
  revert r. induction l as [|a l IH]; intros r H; simpl in H; [lia|].
  destruct r as [|r]; simpl; [reflexivity|]. f_equal. apply IH. lia.
Qed.

Lemma upd_forall {A} (P : A -> Prop) (l : list A) (r : nat) (x : A) :
  Forall P l -> P x -> Forall P (firstn r l ++ [x] ++ skipn (S r) l).
Proof.
  intros H Hx. rewrite Forall_forall in *. intros y Hy.
  apply in_app_or in Hy as [Hy|[<-|Hy]]; [| exact Hx|].
  - apply H. rewrite <- (firstn_skipn r l). apply in_or_app. left. exact Hy.
  - apply H, (CallbackProofs.skipn_incl (S r)), Hy.
Qed.

Lemma nth_forall {A} (P : A -> Prop) (l : list A) (d : A) (r : nat) :
  Forall P l -> P d -> P (nth r l d).
Proof.
  revert r. induction l as [|a l IH]; intros r H Hd; [destruct r; exact Hd|].
  inversion H as [|b m Ha Hl]; subst.
  destruct r; simpl; [exact Ha|apply IH; assumption].
Qed.

Lemma nth_app_other {A} (l : list A) (x d : A) (r : nat) :
  r <> List.length l -> nth r (l ++ [x]) d = nth r l d.
Proof.
  intros H. destruct (Nat.lt_ge_cases r (List.length l)) as [L|L].
  - apply app_nth1, L.
  - rewrite app_nth2 by exact L. rewrite (nth_overflow l) by exact L.
    destruct (r - List.length l)%nat eqn:E; [lia|]. simpl. destruct n; reflexivity.
Qed.

Lemma nth_app_last {A} (l : list A) (x d : A) : nth (List.length l) (l ++ [x]) d = x.
Proof. rewrite app_nth2 by lia. rewrite Nat.sub_diag. reflexivity. Qed.

Lemma nth_app_nil (l : list (list nat)) (r : nat) : nth r (l ++ [[]]) [] = nth r l [].
Proof.
  destruct (Nat.eq_dec r (List.length l)) as [->|H]; [|apply nth_app_other, H].
  rewrite nth_app_last, nth_overflow by lia. reflexivity.
Qed.

Lemma perm_filter {A} (f : A -> bool) (l l' : list A) :
  Permutation l l' -> Permutation (filter f l) (filter f l').
Proof.
  induction 1 as [|x l l' _ IH|x y l|l l' l'' _ IH1 _ IH2]; simpl.
  - constructor.
  - destruct (f x); [apply perm_skip|]; exact IH.
  - destruct (f x), (f y); first [apply perm_swap|apply Permutation_refl].
  - eapply perm_trans; eassumption.
Qed.

Lemma filter_none {A} (f : A -> bool) (l : list A) :
  (forall x, In x l -> f x = false) -> filter f l = [].
Proof.
  induction l as [|a l IH]; intros H; simpl; [reflexivity|].
  rewrite (H a (or_introl eq_refl)). apply IH. intros x Hx. apply H. right. exact Hx.
Qed.

Lemma filter_keep_notin (x : nat) (l : list nat) :
  ~ In x l -> filter (fun y => negb (Nat.eqb x y)) l = l.
Proof.
  induction l as [|a l IH]; intros H; simpl; [reflexivity|].
  destruct (Nat.eqb x a) eqn:E.
  - apply Nat.eqb_eq in E. subst. exfalso. apply H. left. reflexivity.
  - simpl. f_equal. apply IH. intros C. apply H. right. exact C.
Qed.

Lemma NoDup_app_filter (a b : list nat) (f : nat -> bool) :
  NoDup (a ++ b) -> NoDup (a ++ filter f b).
Proof.
  intros H. apply NoDup_app.
  - exact (NoDup_app_remove_r _ _ H).
  - apply NoDup_filter, (NoDup_app_remove_l _ _ H).
  - intros y Ha Hb. apply filter_In in Hb as [Hb _].
    exact (ClassProofs.nodup_app_disj _ _ _ H Ha Hb).
Qed.

Lemma set_add_fresh (x : nat) (l : list nat) :
  ~ In x l -> UploadManager.set_add x l = l ++ [x].
Proof.
  intros H. unfold UploadManager.set_add.
  destruct (existsb (Nat.eqb x) l) eqn:E; [|reflexivity].
  apply existsb_exists in E as [y [Hy E]]. apply Nat.eqb_eq in E. subst. contradiction.
Qed.

Lemma nodupb_spec (l : list nat) : nodupb l = true -> NoDup l.
Proof.
  induction l as [|x l IH]; simpl; intros H; [constructor|].
  apply andb_true_iff in H as [H1 H2]. constructor; [|apply IH, H2].
  intros C. apply negb_true_iff in H1. rewrite (proj2 (existsb_exists _ _)) in H1;
    [discriminate|]. exists x. split; [exact C|apply Nat.eqb_refl].
Qed.

Lemma nth_error_split_at {A} (l : list A) (k : nat) (a : A) :
  nth_error l k = Some a -> l = firstn k l ++ a :: skipn (S k) l.
Proof.
  revert k. induction l as [|b l IH]; intros k H; [destruct k; discriminate|].
  destruct k as [|k]; simpl in *; [injection H as ->; reflexivity|].
  f_equal. apply IH, H.
Qed.

Lemma core_frame (s s' : HS) :
  sets s' = sets s -> flights s' = flights s -> batch_core s -> batch_core s'.
Proof.
  intros Hs Hf H. unfold batch_core, set_flights, set_get in *. rewrite Hs, Hf. exact H.
Qed.

Lemma inv_frame (s s' : HS) :
  sets s' = sets s -> flights s' = flights s -> loops s' = loops s ->
  batch_inv s -> batch_inv s'.
Proof.
  intros Hs Hf Hl H. unfold batch_inv, batch_core, set_flights, set_get in *.
  rewrite Hs, Hf, Hl. exact H.
Qed.

Lemma inv_set_loops (L : list Loop) (s : HS) :
  batch_core s ->
  (forall l, In l L -> (loopSet l < List.length (sets s))%nat
             /\ NoDup (map snd (fileQueue l) ++ set_get (loopSet l) s)) ->
  NoDup (map loopSet L) -> batch_inv (set_loops L s).
Proof. intros Hc Hd He. split; [|split]; assumption. Qed.

(** One admission of the inner loop of [processQueue]. *)
Lemma admit_step (f : File) (uid : nat) (pid : string) (r : nat) (s : HS) :
  batch_core s -> (r < List.length (sets s))%nat -> ~ In uid (set_get r s) ->
  (List.length (set_get r s) < maxConcurrentUploads)%nat ->
  batch_core (startSingle f uid pid r (set_upd r (UploadManager.set_add uid) s))
  /\ set_get r (startSingle f uid pid r (set_upd r (UploadManager.set_add uid) s))
     = set_get r s ++ [uid]
  /\ List.length (sets (startSingle f uid pid r (set_upd r (UploadManager.set_add uid) s)))
     = List.length (sets s)
  /\ (forall r', r' <> r ->
        set_get r' (startSingle f uid pid r (set_upd r (UploadManager.set_add uid) s))
        = set_get r' s)
  /\ loops (startSingle f uid pid r (set_upd r (UploadManager.set_add uid) s)) = loops s.
Proof.
  intros [HA [HB HC]] Hr Hu Hlt.
  assert (Get : set_get r (startSingle f uid pid r (set_upd r (UploadManager.set_add uid) s))
                = set_get r s ++ [uid]).
  { unfold set_get at 1. cbn [startSingle set_upd sets app]. rewrite upd_nth_same by exact Hr.
    apply set_add_fresh, Hu. }
  assert (Oth : forall r', r' <> r ->
            set_get r' (startSingle f uid pid r (set_upd r (UploadManager.set_add uid) s))
            = set_get r' s).
  { intros r' Hne. unfold set_get. simpl. apply upd_nth_other; assumption. }
  assert (Len : List.length (sets (startSingle f uid pid r
                  (set_upd r (UploadManager.set_add uid) s))) = List.length (sets s)).
  { simpl. apply upd_length, Hr. }
  destruct (nth_forall _ (sets s) [] r HB ltac:(split; [constructor|simpl; lia]))
    as [Nd Ln].
  split; [|split; [exact Get|split; [exact Len|split; [exact Oth|reflexivity]]]].
  split; [|split].
  - intros r'. unfold set_flights at 1. simpl. rewrite filter_app, map_app. simpl.
    destruct (Nat.eq_dec r' r) as [->|Hne].
    + rewrite Nat.eqb_refl, Get. simpl. apply Permutation_app_tail, HA.
    + rewrite (proj2 (Nat.eqb_neq r r')) by congruence. rewrite app_nil_r, Oth by exact Hne.
      apply HA.
  - simpl. apply upd_forall; [exact HB|]. rewrite set_add_fresh by exact Hu.
    split.
    + apply NoDup_app; [exact Nd|repeat constructor; intros []|].
      intros y Hy [<-|[]]. exact (Hu Hy).
    + rewrite length_app. simpl. unfold maxConcurrentUploads, set_get in *. lia.
  - intros fl Hfl. rewrite Len. simpl in Hfl. apply in_app_or in Hfl as [Hfl|[<-|[]]].
    + exact (HC fl Hfl).
    + exact Hr.
Qed.

(** The inner [while] of [processQueue]. *)
Lemma admitLoop_core (q : list (File * nat)) (r : nat) (pid : string) (s : HS) :
  batch_core s -> (r < List.length (sets s))%nat -> NoDup (map snd q ++ set_get r s) ->
  batch_core (snd (admitLoop q r pid s))
  /\ NoDup (map snd (fst (admitLoop q r pid s)) ++ set_get r (snd (admitLoop q r pid s)))
  /\ List.length (sets (snd (admitLoop q r pid s))) = List.length (sets s)
  /\ (forall r', r' <> r -> set_get r' (snd (admitLoop q r pid s)) = set_get r' s)
  /\ loops (snd (admitLoop q r pid s)) = loops s.
Proof.
  revert s. induction q as [|[f uid] q IH]; intros s Hc Hr Hn;
    [exact (conj Hc (conj Hn (conj eq_refl (conj (fun _ _ => eq_refl) eq_refl))))|].
  cbn [admitLoop]. destruct (Nat.ltb _ _) eqn:Hlt;
    [|exact (conj Hc (conj Hn (conj eq_refl (conj (fun _ _ => eq_refl) eq_refl))))].
  apply Nat.ltb_lt in Hlt. cbn [map snd app] in Hn.
  assert (Hu : ~ In uid (set_get r s)).
  { intros C. inversion Hn as [|a b Ha Hb]. apply Ha, in_or_app. right. exact C. }
  destruct (admit_step f uid pid r s Hc Hr Hu Hlt) as [C1 [G1 [L1 [O1 Lp1]]]].
  assert (Hr1 : (r < List.length (sets (startSingle f uid pid r
                  (set_upd r (UploadManager.set_add uid) s))))%nat) by (rewrite L1; exact Hr).
  assert (N1 : NoDup (map snd q ++ set_get r (startSingle f uid pid r
                  (set_upd r (UploadManager.set_add uid) s)))).
  { rewrite G1. apply Permutation_NoDup with (uid :: map snd q ++ set_get r s); [|exact Hn].
    rewrite app_assoc. apply Permutation_cons_append. }
  destruct (IH _ C1 Hr1 N1) as [C2 [N2 [L2 [O2 Lp2]]]].
  split; [exact C2|]. split; [exact N2|]. split; [rewrite L2; exact L1|]. split.
  - intros r' Hne. rewrite O2 by exact Hne. apply O1, Hne.
  - rewrite Lp2. exact Lp1.
Qed.

Lemma loopIter_inv (k : nat) (s : HS) : batch_inv s -> batch_inv (loopIter k s).
Proof.
  intros [Hc [Hd He]]. unfold loopIter.
  destruct (nth_error (loops s) k) as [l|] eqn:Hk; [|split; [exact Hc|split; assumption]].
  destruct (_ && _).
  - apply inv_set_loops; [exact Hc| |].
    + intros l' Hl'. apply Hd, (CallbackProofs.remove_nth_incl k), Hl'.
    + pose proof (Permutation_map loopSet (ClassProofs.remove_nth_perm _ _ _ Hk)) as P.
      pose proof (Permutation_NoDup P He) as N. inversion N; assumption.
  - destruct (Hd l (nth_error_In _ _ Hk)) as [Lr Ln].
    destruct (admitLoop_core (fileQueue l) (loopSet l) (loopPid l) s Hc Lr Ln)
      as [C1 [N1 [L1 [O1 Lp1]]]].
    destruct (admitLoop (fileQueue l) (loopSet l) (loopPid l) s) as [q' s1].
    cbn [fst snd] in *. rewrite Lp1.
    pose proof (nth_error_split_at _ _ _ Hk) as Split.
    set (A := firstn k (loops s)) in *. set (B := skipn (S k) (loops s)) in *.
    assert (He' : NoDup (map loopSet A ++ loopSet l :: map loopSet B)).
    { rewrite Split, map_app in He. exact He. }
    pose proof (NoDup_remove_2 _ _ _ He') as Nl.
    assert (InA : forall l', In l' A -> In l' (loops s)).
    { intros l' H. rewrite Split. apply in_or_app. left. exact H. }
    assert (InB : forall l', In l' B -> In l' (loops s)).
    { intros l' H. rewrite Split. apply in_or_app. right. right. exact H. }
    apply inv_set_loops; [exact C1| |].
    + intros l' Hl'. apply in_app_or in Hl' as [Hl'|[<-|Hl']].
      * destruct (Hd l' (InA l' Hl')) as [X Y]. split; [rewrite L1; exact X|].
        rewrite O1; [exact Y|]. intros E. apply Nl. rewrite <- E.
        apply in_or_app. left. apply in_map, Hl'.
      * simpl. split; [rewrite L1; exact Lr|exact N1].
      * destruct (Hd l' (InB l' Hl')) as [X Y]. split; [rewrite L1; exact X|].
        rewrite O1; [exact Y|]. intros E. apply Nl. rewrite <- E.
        apply in_or_app. right. apply in_map, Hl'.
    + rewrite !map_app. simpl. exact He'.
Qed.

(** The state [uploadFiles] builds before running its loop: a new empty
    set and a loop over the files. *)
Lemma new_batch_inv (s : HS) (q : list (File * nat)) (pid : string) :
  NoDup (map snd q) -> batch_inv s ->
  batch_inv (set_loops (loops (set_alloc [] s) ++ [mkLoop q (List.length (sets s)) pid])
               (set_alloc [] s)).
Proof.
  intros Hq [[HA [HB HC]] [Hd He]].
  assert (G : forall r, set_get r (set_loops (loops (set_alloc [] s)
               ++ [mkLoop q (List.length (sets s)) pid]) (set_alloc [] s)) = set_get r s).
  { intros r. unfold set_get. simpl. apply nth_app_nil. }
  split; [split; [|split]|split].
  - intros r. rewrite G. exact (HA r).
  - simpl. apply Forall_app. split; [exact HB|]. repeat constructor.
  - intros fl Hfl. simpl. rewrite length_app. simpl. pose proof (HC fl Hfl). lia.
  - intros l Hl. rewrite G. simpl. rewrite length_app. simpl.
    apply in_app_or in Hl as [Hl|[<-|[]]].
    + destruct (Hd l Hl) as [X Y]. split; [lia|exact Y].
    + simpl. split; [lia|]. unfold set_get. rewrite nth_overflow by lia.
      rewrite app_nil_r. exact Hq.
  - simpl. rewrite map_app. simpl.
    apply Permutation_NoDup with (List.length (sets s) :: map loopSet (loops s));
      [apply Permutation_cons_append|].
    constructor; [|exact He]. intros C. apply in_map_iff in C as [l [E Hl]].
    destruct (Hd l Hl) as [X _]. lia.
Qed.

Lemma uploadFiles_inv (fs : list File) (pid : string) (s : HS) :
  nodupb (map f_uuid fs) = true -> batch_inv s -> batch_inv (snd (uploadFiles fs pid s)).
Proof.
  intros Hfs H. unfold uploadFiles. cbn [snd]. apply loopIter_inv.
  apply new_batch_inv.
  - rewrite map_map. simpl. apply nodupb_spec, Hfs.
  - apply (inv_frame s); [reflexivity|reflexivity|reflexivity|exact H].
Qed.

(** The [finally] of [uploadSingleFile]: the transfer leaves the list of
    pending calls and its id leaves its set. *)
Lemma remove_flight_inv (s : HS) (k : nat) (fl : Flight) (u : list UploadStatus) (b : bool)
  (iv : list Interval) (h : nat) :
  nth_error (flights s) k = Some fl -> batch_inv s ->
  batch_inv (set_upd (fl_set fl) (UploadManager.set_delete (fl_uploadId fl))
               (mkHS u b (sets s) (loops s) (UploadManager.remove_nth k (flights s)) iv h)).
Proof.
  intros Hk [[HA [HB HC]] [Hd He]].
  set (r := fl_set fl). set (uid := fl_uploadId fl).
  set (F' := UploadManager.remove_nth k (flights s)).
  pose proof (ClassProofs.remove_nth_perm _ _ _ Hk) as P. fold F' in P.
  assert (Hr : (r < List.length (sets s))%nat) by exact (HC fl (nth_error_In _ _ Hk)).
  assert (SFr : Permutation (set_flights r s)
                  (uid :: map fl_uploadId (filter (fun x => Nat.eqb (fl_set x) r) F'))).
  { unfold set_flights. eapply perm_trans; [apply Permutation_map, perm_filter, P|].
    simpl. fold r. rewrite Nat.eqb_refl. reflexivity. }
  assert (SFo : forall r', r' <> r -> Permutation (set_flights r' s)
                  (map fl_uploadId (filter (fun x => Nat.eqb (fl_set x) r') F'))).
  { intros r' Hne. unfold set_flights. eapply perm_trans; [apply Permutation_map, perm_filter, P|].
    simpl. fold r. rewrite (proj2 (Nat.eqb_neq r r')) by congruence. reflexivity. }
  destruct (nth_forall _ (sets s) [] r HB ltac:(split; [constructor|simpl; lia]))
    as [Nd Ln].
  assert (PS : Permutation (set_get r s)
                 (uid :: map fl_uploadId (filter (fun x => Nat.eqb (fl_set x) r) F'))).
  { eapply perm_trans; [apply Permutation_sym, HA|exact SFr]. }
  assert (Del : Permutation (UploadManager.set_delete uid (set_get r s))
                  (map fl_uploadId (filter (fun x => Nat.eqb (fl_set x) r) F'))).
  { pose proof (Permutation_NoDup PS Nd) as N. inversion N as [|a c Ha Hc]; subst.
    unfold UploadManager.set_delete. eapply perm_trans; [apply perm_filter, PS|].
    simpl. rewrite Nat.eqb_refl. simpl. rewrite filter_keep_notin by exact Ha. reflexivity. }
  assert (Get : set_get r (set_upd r (UploadManager.set_delete uid)
               (mkHS u b (sets s) (loops s) F' iv h))
                = UploadManager.set_delete uid (set_get r s)).
  { unfold set_get at 1. simpl. apply upd_nth_same, Hr. }
  assert (Oth : forall r', r' <> r -> set_get r' (set_upd r (UploadManager.set_delete uid)
               (mkHS u b (sets s) (loops s) F' iv h)) = set_get r' s).
  { intros r' Hne. unfold set_get. simpl. apply upd_nth_other; assumption. }
  assert (Len : List.length (sets (set_upd r (UploadManager.set_delete uid)
               (mkHS u b (sets s) (loops s) F' iv h))) = List.length (sets s)).
  { simpl. apply upd_length, Hr. }
  split; [split; [|split]|split].
  - intros r'. destruct (Nat.eq_dec r' r) as [->|Hne].
    + rewrite Get. apply Permutation_sym, Del.
    + rewrite Oth by exact Hne. eapply perm_trans; [apply Permutation_sym, SFo, Hne|].
      apply HA.
  - simpl. apply upd_forall; [exact HB|]. split.
    + apply NoDup_filter, Nd.
    + pose proof (ClassProofs.set_delete_length uid (set_get r s)). unfold set_get, maxConcurrentUploads in *. cbn [sets] in *. lia.
  - intros fl' Hfl'. rewrite Len. apply HC, (CallbackProofs.remove_nth_incl k), Hfl'.
  - intros l Hl. rewrite Len. destruct (Hd l Hl) as [X Y]. split; [exact X|].
    destruct (Nat.eq_dec (loopSet l) r) as [E|Hne].
    + rewrite E, Get. rewrite E in Y. apply NoDup_app_filter, Y.
    + rewrite Oth by exact Hne. exact Y.
  - exact He.
Qed.

Lemma settleSingle_inv (k : nat) (o : SOutcome) (s : HS) :
  batch_inv s -> batch_inv (settleSingle k o s).
Proof.
  intros H. unfold settleSingle.
  destruct (nth_error (flights s) k) as [fl|] eqn:Hk; [|exact H].
  destruct o as [resp|m]; [destruct (_ && _)|];
    exact (remove_flight_inv s k fl _ _ _ _ Hk H).
Qed.

(** [retryUpload]: a new set holding only the retried id, and its
    transfer. *)
Lemma new_single_inv (s : HS) (f : File) (x : nat) (pid : string) (u : list UploadStatus) :
  batch_inv s ->
  batch_inv (startSingle f x pid (List.length (sets (set_uploads u s)))
               (set_alloc [x] (set_uploads u s))).
Proof.
  intros [[HA [HB HC]] [Hd He]].
  change (List.length (sets (set_uploads u s))) with (List.length (sets s)).
  set (R := List.length (sets s)).
  assert (Oth : forall r, r <> R -> set_get r (startSingle f x pid R
                  (set_alloc [x] (set_uploads u s))) = set_get r s).
  { intros r Hne. unfold set_get. simpl. apply nth_app_other, Hne. }
  assert (GetR : set_get R (startSingle f x pid R (set_alloc [x] (set_uploads u s))) = [x]).
  { unfold set_get. simpl. apply nth_app_last. }
  assert (Old : forall r, r <> R -> filter (fun fl => Nat.eqb (fl_set fl) r)
                  [mkFlight f x pid R (nextHandle s)] = []).
  { intros r Hne. simpl. rewrite (proj2 (Nat.eqb_neq R r)) by congruence. reflexivity. }
  split; [split; [|split]|split].
  - intros r. unfold set_flights.
    cbn [startSingle set_alloc set_uploads flights]. rewrite filter_app, map_app.
    destruct (Nat.eq_dec r R) as [->|Hne].
    + rewrite GetR, filter_none.
      * simpl. rewrite Nat.eqb_refl. reflexivity.
      * intros fl Hfl. apply Nat.eqb_neq. pose proof (HC fl Hfl). unfold R. lia.
    + rewrite Oth, Old by exact Hne. rewrite app_nil_r. apply HA.
  - simpl. apply Forall_app. split; [exact HB|].
    constructor; [|constructor]. split; [constructor; [intros []|constructor]|].
    unfold maxConcurrentUploads. simpl. lia.
  - intros fl Hfl. simpl in *. rewrite length_app. simpl.
    apply in_app_or in Hfl as [Hfl|[<-|[]]]; [pose proof (HC fl Hfl); lia|simpl; unfold R; lia].
  - intros l Hl. simpl in Hl. destruct (Hd l Hl) as [X Y].
    split; [simpl; rewrite length_app; simpl; lia|].
    rewrite Oth; [exact Y|unfold R; lia].
  - exact He.
Qed.

Lemma retryUpload_inv (x : nat) (s : HS) : batch_inv s -> batch_inv (retryUpload x s).
Proof.
  intros H. unfold retryUpload. destruct (find _ _) as [u|]; [|exact H].
  destruct (status u), (u_file u), (u_propertyId u) as [pid|]; try exact H.
  destruct (String.eqb pid ""); [exact H|].
  exact (new_single_inv s f x pid _ H).
Qed.

Lemma hrun_op_inv (s : HS) (o : hop) :
  distinct_batch o = true -> batch_inv s -> batch_inv (hrun_op s o).
Proof.
  intros Ho H. destruct o as [fs pid|k|k|k out|x|x|]; simpl.
  - apply uploadFiles_inv; assumption.
  - apply loopIter_inv, H.
  - unfold intervalTick. destruct (nth_error (intervals s) k); [|exact H].
    apply (inv_frame s); [reflexivity|reflexivity|reflexivity|exact H].
  - apply settleSingle_inv, H.
  - apply retryUpload_inv, H.
  - apply (inv_frame s); [reflexivity|reflexivity|reflexivity|exact H].
  - apply (inv_frame s); [reflexivity|reflexivity|reflexivity|exact H].
Qed.

Lemma hrun_inv (ops : list hop) (s : HS) :
  forallb distinct_batch ops = true -> batch_inv s -> batch_inv (hrun s ops).
Proof.
  revert s. induction ops as [|o ops IH]; intros s Hb H; [exact H|].
  simpl in Hb. apply andb_true_iff in Hb as [Ho Hb].
  change (hrun s (o :: ops)) with (hrun (hrun_op s o) ops).
  apply IH; [exact Hb|apply hrun_op_inv; assumption].
Qed.

Lemma hinit_inv : batch_inv hinit.
Proof.
  split; [split; [|split]|split].
  - intros r. unfold set_flights, set_get. simpl. destruct r; constructor.
  - constructor.
  - intros fl [].
  - intros l [].
  - constructor.
Qed.

(** The transfers given one [activeUploadsSet], that is started by one
    call of [uploadFiles] (or by one [retryUpload]), have distinct ids
    and are never more than [maxConcurrentUploads] at once, provided the
    files of each [uploadFiles] call have distinct [uuid]s. *)
Theorem batch_concurrency (ops : list hop) (r : nat) :
  forallb distinct_batch ops = true ->
  NoDup (set_flights r (hrun hinit ops))
  /\ (List.length (set_flights r (hrun hinit ops)) <= maxConcurrentUploads)%nat.
Proof.
  intros H. destruct (hrun_inv ops hinit H hinit_inv) as [[HA [HB _]] _].
  destruct (nth_forall _ (sets (hrun hinit ops)) [] r HB
              ltac:(split; [constructor|simpl; unfold maxConcurrentUploads; lia])) as [N L].
  split.
  - exact (Permutation_NoDup (Permutation_sym (HA r)) N).
  - rewrite (Permutation_length (HA r)). exact L.
Qed.

Lemma batch_concurrency_witness :
  NoDup (set_flights 0 (hrun hinit [HUploadFiles [Fixtures.png 1; Fixtures.png 2;
    Fixtures.png 3; Fixtures.png 4] "p"; HSettle 0 Fixtures.fetch_fail; HPoll 0; HRetry 1]))
  /\ (List.length (set_flights 0 (hrun hinit [HUploadFiles [Fixtures.png 1; Fixtures.png 2;
    Fixtures.png 3; Fixtures.png 4] "p"; HSettle 0 Fixtures.fetch_fail; HPoll 0; HRetry 1]))
      <= maxConcurrentUploads)%nat.
Proof. apply batch_concurrency. reflexivity. Defined.

End BatchProofs.
